(** * Tabletop Notetaker: the transcript-to-summary pipeline

    A shallow embedding of the Python sources
    - [src/services/summarization_service.py]  (module [SummarizationService])
    - [src/services/recording_service.py]      (module [RecordingService])
    - [src/core/app.py]                        (module [TabletopNotetakerApp])
    - [src/ui/cli.py]                          (module [CLIInterface])
    followed by the properties of the specification, each proved or refuted
    on the embedding.

    Python strings are modelled as lists of 8-bit code points (the Latin-1
    range of Unicode); character classes follow what CPython answers on
    that range.  Dictionaries keep insertion order and are association
    lists; a [set] is a list without duplicates whose iteration order is a
    parameter, because CPython fixes it by hashing only. *)

From Stdlib Require Import Ascii String DecimalString.
From Stdlib Require Import Bool Arith ZArith QArith Lia.
From Stdlib Require Import List Permutation.
Import ListNotations.

Local Open Scope nat_scope.
Local Open Scope list_scope.

(** ** Python strings and the [str] / [re] primitives the sources use *)

Module Py.

Definition str := list ascii.

(** String literals. *)
Definition lit (s : string) : str := list_ascii_of_string s.

Definition str_eq_dec : forall a b : str, {a = b} + {a <> b} :=
  list_eq_dec ascii_dec.

Definition str_eqb (a b : str) : bool :=
  if str_eq_dec a b then true else false.

(** Truthiness of a string: [if s:] holds for the non-empty ones. *)
Definition truthy (s : str) : bool :=
  match s with [] => false | _ :: _ => true end.

Definition code (c : ascii) : nat := nat_of_ascii c.

Definition between (lo hi n : nat) : bool := (lo <=? n) && (n <=? hi).

(** [str.isspace] on one code point: TAB..CR, FS..US, SPACE, NEL, NBSP. *)
Definition isspace (c : ascii) : bool :=
  let n := code c in
  between 9 13 n || between 28 32 n || (n =? 133) || (n =? 160).

(** [\w] of the [re] module on a [str] pattern: alphanumeric or underscore. *)
Definition isword (c : ascii) : bool :=
  let n := code c in
  between 48 57 n || between 65 90 n || (n =? 95) || between 97 122 n
  || (n =? 170) || (n =? 178) || (n =? 179) || (n =? 181)
  || (n =? 185) || (n =? 186) || between 188 190 n
  || between 192 214 n || between 216 246 n || between 248 255 n.

(** [str.lower] on one code point. *)
Definition lower_char (c : ascii) : ascii :=
  let n := code c in
  if between 65 90 n || between 192 214 n || between 216 222 n
  then ascii_of_nat (n + 32) else c.

Definition lower (s : str) : str := map lower_char s.

Fixpoint lstrip (s : str) : str :=
  match s with
  | [] => []
  | c :: s' => if isspace c then lstrip s' else s
  end.

Definition rstrip (s : str) : str := rev (lstrip (rev s)).

(** [s.strip()] *)
Definition strip (s : str) : str := rstrip (lstrip s).

(** [s.startswith(p)] *)
Fixpoint startswith (p s : str) : bool :=
  match p, s with
  | [], _ => true
  | _ :: _, [] => false
  | a :: p', b :: s' => if ascii_dec a b then startswith p' s' else false
  end.

(** Offset of the first occurrence of [sub] in [s], if there is one. *)
Fixpoint index_from (sub s : str) : option nat :=
  if startswith sub s then Some 0
  else match s with
       | [] => None
       | _ :: s' => option_map S (index_from sub s')
       end.

(** [s.find(sub)]: the lowest index, or [-1]. *)
Definition find (sub s : str) : Z :=
  match index_from sub s with
  | Some n => Z.of_nat n
  | None => (-1)%Z
  end.

(** [sub in s] *)
Definition contains (sub s : str) : bool :=
  match index_from sub s with Some _ => true | None => false end.

(** A slice bound, clamped the way Python clamps it. *)
Definition clamp (len : nat) (i : Z) : nat :=
  if (i <? 0)%Z then Z.to_nat (Z.max 0 (i + Z.of_nat len))
  else Nat.min (Z.to_nat i) len.

(** [s[lo:hi]] *)
Definition slice (s : str) (lo hi : Z) : str :=
  let l := clamp (length s) lo in
  let h := clamp (length s) hi in
  firstn (h - l) (skipn l s).

(** [s[lo:]] *)
Definition slice_from (s : str) (lo : Z) : str :=
  skipn (clamp (length s) lo) s.

(** [sep.join(parts)] *)
Fixpoint join (sep : str) (parts : list str) : str :=
  match parts with
  | [] => []
  | [p] => p
  | p :: rest => p ++ sep ++ join sep rest
  end.

(** [s.split(sep)] for a one-character separator. *)
Fixpoint split_char (sep : ascii) (s : str) : list str :=
  match s with
  | [] => [[]]
  | c :: s' =>
      if ascii_dec c sep then [] :: split_char sep s'
      else match split_char sep s' with
           | [] => [[c]]
           | p :: ps => (c :: p) :: ps
           end
  end.

(** [re.split(r'[<class>]+', s)]: the pieces between the maximal runs of
    characters of the class.  [cur] is the piece being read, reversed;
    [in_run] tells whether the previous character was in the class. *)
Fixpoint re_split_runs (cls : ascii -> bool) (cur : str) (in_run : bool)
    (s : str) : list str :=
  match s with
  | [] => [rev cur]
  | c :: s' =>
      if cls c then
        if in_run then re_split_runs cls cur true s'
        else rev cur :: re_split_runs cls [] true s'
      else re_split_runs cls (c :: cur) false s'
  end.

(** [re.findall(r'\b\w+\b', s)]: the maximal runs of word characters. *)
Fixpoint re_findall_runs (cur : str) (s : str) : list str :=
  match s with
  | [] => match cur with [] => [] | _ :: _ => [rev cur] end
  | c :: s' =>
      if isword c then re_findall_runs (c :: cur) s'
      else match cur with
           | [] => re_findall_runs [] s'
           | _ :: _ => rev cur :: re_findall_runs [] s'
           end
  end.

Definition re_findall_words (s : str) : list str := re_findall_runs [] s.

(** [s.split()]: the maximal runs of characters that are not white space. *)
Fixpoint split_runs (cur : str) (s : str) : list str :=
  match s with
  | [] => match cur with [] => [] | _ :: _ => [rev cur] end
  | c :: s' =>
      if isspace c then
        match cur with
        | [] => split_runs [] s'
        | _ :: _ => rev cur :: split_runs [] s'
        end
      else split_runs (c :: cur) s'
  end.

Definition split_ws (s : str) : list str := split_runs [] s.

(** [s * n] *)
Fixpoint repeat_str (s : str) (n : nat) : str :=
  match n with O => [] | S k => s ++ repeat_str s k end.

(** [str(n)] for a non-negative [int]. *)
Definition str_of_nat (n : nat) : str :=
  lit (NilEmpty.string_of_uint (Nat.to_uint n)).

(** [str(z)] for an [int]. *)
Definition str_of_Z (z : Z) : str :=
  lit (NilEmpty.string_of_int (Z.to_int z)).

(** [x in l] for a list or set of strings. *)
Definition mem (x : str) (l : list str) : bool :=
  if in_dec str_eq_dec x l then true else false.

End Py.

Import Py.

(** ** Values shared by the components *)

Definition newline : ascii := "010"%char.

Definition nonempty {A} (l : list A) : bool :=
  match l with [] => false | _ :: _ => true end.

(** Files opened in text mode, as [open(path, 'w', encoding='utf-8')] and
    [open(path, 'r', encoding='utf-8')] do with the default [newline]. *)
Module TextFile.

Definition carriage_return : ascii := "013"%char.

(** The platform decides [os.linesep]. *)
Inductive Platform := Posix | Windows.

Definition linesep (platform : Platform) : str :=
  match platform with
  | Posix => [newline]
  | Windows => [carriage_return; newline]
  end.

(** What [f.write(s)] puts in the file: each ['\n'] becomes [os.linesep]. *)
Definition write_text (platform : Platform) (s : str) : str :=
  flat_map (fun c => if ascii_dec c newline then linesep platform else [c]) s.

(** What [f.read()] gives for the file: ["\r\n"] and a lone ['\r'] become
    ['\n']. *)
Fixpoint read_text (file : str) : str :=
  match file with
  | [] => []
  | c :: rest =>
      if ascii_dec c carriage_return then
        match rest with
        | d :: rest' =>
            if ascii_dec d newline then newline :: read_text rest'
            else newline :: read_text rest
        | [] => [newline]
        end
      else c :: read_text rest
  end.

End TextFile.

(** A Python number as the transcript dictionaries carry it.  Float
    arithmetic is not modelled: a float is kept as its [repr]. *)
Inductive Number :=
| NInt (z : Z)
| NFloat (repr : str).

(** [str(x)] and [f"{x}"] for a number. *)
Definition str_of_number (x : Number) : str :=
  match x with
  | NInt z => str_of_Z z
  | NFloat r => r
  end.

(** A segment dictionary; a key that is absent is [None]. *)
Record Segment := mkSegment {
  seg_speaker : option str;
  seg_text : option str;
  seg_start : option Number;
  seg_end : option Number;
  seg_confidence : option Number
}.

(** A transcript dictionary. *)
Record Transcript := mkTranscript {
  tr_file_path : option str;
  tr_duration : option Number;
  tr_timestamp : option str;
  tr_segments : option (list Segment);
  tr_error : option str
}.

(** [d.get(key, default)] *)
Definition get {A} (field : option A) (default : A) : A :=
  match field with Some v => v | None => default end.

(** [segment.get('speaker', 'Unknown')] *)
Definition speaker_of (segment : Segment) : str :=
  get (seg_speaker segment) (lit "Unknown").

(** [segment.get('text', '').strip()] *)
Definition text_of (segment : Segment) : str :=
  strip (get (seg_text segment) []).

(** The wall clock as the renderers read it: [datetime.now()] formatted
    with ['%Y-%m-%d %H:%M:%S'], with ['%Y%m%d_%H%M%S'] and by
    [isoformat()]. *)
Record Clock := mkClock {
  now_pretty : str;
  now_compact : str;
  now_iso : str
}.

(** A Python [set] of strings: its members without duplicates, kept here
    in insertion order.  The order in which [list(s)] enumerates them is
    fixed by the hash table, so it is a parameter [set_iter] of whatever
    iterates over a set. *)
Module PySet.
Definition t := list str.
Definition empty : t := [].
Definition add (x : str) (s : t) : t := if mem x s then s else s ++ [x].
End PySet.

(** A [dict] from words to counts, in insertion order. *)
Module PyDict.
Definition t := list (str * nat).

(** [d.get(k, default)] *)
Fixpoint get_or (d : t) (k : str) (default : nat) : nat :=
  match d with
  | [] => default
  | (k', v) :: d' => if str_eq_dec k k' then v else get_or d' k default
  end.

(** [d[k] = v]: an existing key keeps its place, a new one goes last. *)
Fixpoint set (d : t) (k : str) (v : nat) : t :=
  match d with
  | [] => [(k, v)]
  | (k', v') :: d' =>
      if str_eq_dec k k' then (k', v) :: d' else (k', v') :: set d' k v
  end.

(** [sorted(d.items(), key=lambda x: x[1], reverse=True)]: the sort is
    stable, and [reverse=True] keeps items of equal count in their
    original order. *)
Fixpoint insert_desc (x : str * nat) (l : t) : t :=
  match l with
  | [] => [x]
  | y :: l' => if snd x <? snd y then y :: insert_desc x l' else x :: l
  end.

Fixpoint sorted_desc (l : t) : t :=
  match l with
  | [] => []
  | x :: l' => insert_desc x (sorted_desc l')
  end.
End PyDict.

(** ** src/services/summarization_service.py *)

Module SummarizationService.

(** [self.common_words] *)
Definition common_words : list str := map lit
  [ "the"; "a"; "an"; "and"; "or"; "but"; "in"; "on"; "at"; "to"; "for";
    "of"; "with"; "by";
    "is"; "are"; "was"; "were"; "be"; "been"; "being"; "have"; "has";
    "had"; "do"; "does";
    "did"; "will"; "would"; "could"; "should"; "may"; "might"; "must";
    "can"; "shall" ]%string.

Definition action_markers : list str := map lit
  [ "todo"; "need to"; "should"; "will"; "action" ]%string.

Definition is_terminator (c : ascii) : bool :=
  mem [c] [lit "."; lit "!"; lit "?"].

(** [re.split(r'[.!?]+', text)] *)
Definition split_sentences (text : str) : list str :=
  re_split_runs is_terminator [] false text.

Record SummaryData := mkSummaryData {
  speakers : list str;
  total_segments : nat;
  key_points : list str;
  action_items : list str;
  keywords : list str;
  summary_text : str
}.

(** *** [_extract_keywords] *)

(** The body of [for word in words]. *)
Definition count_word (word_freq : PyDict.t) (word : str) : PyDict.t :=
  if (3 <? length word) && negb (mem word common_words)
  then PyDict.set word_freq word (PyDict.get_or word_freq word 0 + 1)
  else word_freq.

Definition _extract_keywords (text : str) : list str :=
  let words := re_findall_words (lower text) in
  let word_freq := fold_left count_word words [] in
  let sorted_words := PyDict.sorted_desc word_freq in
  map fst (filter (fun item => 1 <? snd item) sorted_words).

(** *** [_generate_summary_text] *)

(** The body of [for sentence in sentences[:5]]. *)
Definition pick_sentence (important_sentences : list str) (sentence : str)
    : list str :=
  if length important_sentences <? 3
  then important_sentences ++ [sentence]
  else important_sentences.

Definition substantial_sentences (full_text : str) : list str :=
  filter (fun s => 20 <? length s) (map strip (split_sentences full_text)).

Definition _generate_summary_text (text_segments : list str) : str :=
  let full_text := join (lit " ") text_segments in
  let sentences := substantial_sentences full_text in
  let important_sentences := fold_left pick_sentence (firstn 5 sentences) [] in
  join (lit " ") important_sentences.

(** *** [_extract_summary_data] *)

(** The four accumulators of the loop over the segments. *)
Record Acc := mkAcc {
  acc_all_text : list str;
  acc_speakers : PySet.t;
  acc_key_points : list str;
  acc_action_items : list str
}.

(** The body of [for sentence in sentences]. *)
Definition add_key_point (key_points : list str) (sentence : str)
    : list str :=
  let sentence := strip sentence in
  if 20 <? length sentence then key_points ++ [sentence] else key_points.

(** The body of [for segment in segments]. *)
Definition scan_segment (acc : Acc) (segment : Segment) : Acc :=
  let text := text_of segment in
  let speaker := speaker_of segment in
  if truthy text then
    {| acc_all_text := acc_all_text acc ++ [text];
       acc_speakers := PySet.add speaker (acc_speakers acc);
       acc_action_items :=
         if existsb (fun word => contains word (lower text)) action_markers
         then acc_action_items acc ++ [speaker ++ lit ": " ++ text]
         else acc_action_items acc;
       acc_key_points :=
         fold_left add_key_point (split_sentences text) (acc_key_points acc) |}
  else acc.

Definition scan_segments (segments : list Segment) : Acc :=
  fold_left scan_segment segments (mkAcc [] PySet.empty [] []).

Section WithSetOrder.

(** How [list(speakers)] enumerates the set. *)
Variable set_iter : PySet.t -> list str.

Definition _extract_summary_data (segments : list Segment) : SummaryData :=
  let acc := scan_segments segments in
  let full_text := join (lit " ") (acc_all_text acc) in
  let keywords := _extract_keywords full_text in
  {| speakers := set_iter (acc_speakers acc);
     total_segments := length segments;
     key_points := firstn 10 (acc_key_points acc);
     action_items := firstn 5 (acc_action_items acc);
     keywords := firstn 15 keywords;
     summary_text := _generate_summary_text (acc_all_text acc) |}.

End WithSetOrder.

(** *** The renderers *)

(** [transcript.get('duration', 'Unknown')] inside an f-string. *)
Definition duration_field (transcript : Transcript) : str :=
  match tr_duration transcript with
  | Some n => str_of_number n
  | None => lit "Unknown"
  end.

(** [enumerate(items, start)] *)
Fixpoint enumerate {A} (start : nat) (items : list A) : list (nat * A) :=
  match items with
  | [] => []
  | x :: rest => (start, x) :: enumerate (S start) rest
  end.

Definition numbered (entry : nat * str) : str :=
  lit "  " ++ str_of_nat (fst entry) ++ lit ". " ++ snd entry.

(** The list [lines] of [_format_text_summary], just before it is joined. *)
Definition text_summary_lines (clock : Clock) (data : SummaryData)
    (transcript : Transcript) : list str :=
  [ lit "MEETING SUMMARY";
    repeat_str (lit "=") 50;
    lit "Date: " ++ now_pretty clock;
    lit "Duration: " ++ duration_field transcript ++ lit " seconds";
    [] ]
  ++ [lit "PARTICIPANTS:"]
  ++ map (fun speaker => lit "  - " ++ speaker) (speakers data)
  ++ [[]]
  ++ (if truthy (summary_text data)
      then [lit "SUMMARY:"; summary_text data; []] else [])
  ++ (if nonempty (key_points data)
      then [lit "KEY POINTS:"]
           ++ map numbered (enumerate 1 (key_points data)) ++ [[]]
      else [])
  ++ (if nonempty (action_items data)
      then [lit "ACTION ITEMS:"]
           ++ map numbered (enumerate 1 (action_items data)) ++ [[]]
      else [])
  ++ (if nonempty (keywords data)
      then [lit "TOPICS/KEYWORDS:"; join (lit ", ") (keywords data)]
      else []).

Definition _format_text_summary (clock : Clock) (data : SummaryData)
    (transcript : Transcript) : str :=
  join [newline] (text_summary_lines clock data transcript).

Definition bullet (item : str) : str := lit "- " ++ item.

(** The list [lines] of [_format_markdown_summary]. *)
Definition markdown_summary_lines (clock : Clock) (data : SummaryData)
    (transcript : Transcript) : list str :=
  [ lit "# Meeting Summary";
    [];
    lit "**Date:** " ++ now_pretty clock;
    lit "**Duration:** " ++ duration_field transcript ++ lit " seconds";
    [] ]
  ++ [lit "## Participants"]
  ++ map bullet (speakers data)
  ++ [[]]
  ++ (if truthy (summary_text data)
      then [lit "## Summary"; summary_text data; []] else [])
  ++ (if nonempty (key_points data)
      then [lit "## Key Points"] ++ map bullet (key_points data) ++ [[]]
      else [])
  ++ (if nonempty (action_items data)
      then [lit "## Action Items"] ++ map bullet (action_items data) ++ [[]]
      else [])
  ++ (if nonempty (keywords data)
      then [lit "## Topics/Keywords"; join (lit ", ") (keywords data)]
      else []).

Definition _format_markdown_summary (clock : Clock) (data : SummaryData)
    (transcript : Transcript) : str :=
  join [newline] (markdown_summary_lines clock data transcript).

(** [json.dumps(..., indent=2, ensure_ascii=False)] on the values the
    summary holds: strings, numbers, lists of strings and objects. *)
Module Json.

Definition quote : ascii := "034"%char.
Definition backslash : ascii := "092"%char.

Definition hex_digit (n : nat) : ascii :=
  if n <? 10 then ascii_of_nat (48 + n) else ascii_of_nat (87 + n).

Definition escape_char (c : ascii) : str :=
  let n := code c in
  if n =? 34 then [backslash; quote]
  else if n =? 92 then [backslash; backslash]
  else if n =? 8 then backslash :: lit "b"
  else if n =? 9 then backslash :: lit "t"
  else if n =? 10 then backslash :: lit "n"
  else if n =? 12 then backslash :: lit "f"
  else if n =? 13 then backslash :: lit "r"
  else if n <? 32
       then backslash :: lit "u00" ++ [hex_digit (n / 16); hex_digit (n mod 16)]
  else [c].

Definition quoted (s : str) : str :=
  [quote] ++ flat_map escape_char s ++ [quote].

(** A float is written by its [repr], the three that are not finite
    apart. *)
Definition number (x : Number) : str :=
  match x with
  | NInt z => str_of_Z z
  | NFloat r =>
      if str_eqb r (lit "inf") then lit "Infinity"
      else if str_eqb r (lit "-inf") then lit "-Infinity"
      else if str_eqb r (lit "nan") then lit "NaN"
      else r
  end.

Definition indent (level : nat) : str := repeat_str (lit " ") (2 * level).

(** A list or object whose rendered members are [members], opened by
    [open] and closed by [close], at nesting depth [level]. *)
Definition block (open close : str) (level : nat) (members : list str)
    : str :=
  match members with
  | [] => open ++ close
  | _ :: _ =>
      open ++ [newline]
      ++ join (lit "," ++ [newline])
           (map (fun m => indent (S level) ++ m) members)
      ++ [newline] ++ indent level ++ close
  end.

Definition array (level : nat) (items : list str) : str :=
  block (lit "[") (lit "]") level (map quoted items).

Definition member (key : string) (value : str) : str :=
  quoted (lit key) ++ lit ": " ++ value.

Definition object (level : nat) (members : list str) : str :=
  block (lit "{") (lit "}") level members.

End Json.

Definition _format_json_summary (clock : Clock) (data : SummaryData)
    (transcript : Transcript) : str :=
  Json.object 0
    [ Json.member "metadata"
        (Json.object 1
           [ Json.member "date" (Json.quoted (now_iso clock));
             Json.member "duration"
               (Json.number (get (tr_duration transcript) (NInt 0)));
             Json.member "file_path"
               (Json.quoted (get (tr_file_path transcript) [])) ]);
      Json.member "participants" (Json.array 1 (speakers data));
      Json.member "summary" (Json.quoted (summary_text data));
      Json.member "key_points" (Json.array 1 (key_points data));
      Json.member "action_items" (Json.array 1 (action_items data));
      Json.member "keywords" (Json.array 1 (keywords data)) ].

(** *** [summarize] *)

Definition no_content : str := lit "No transcript content to summarize.".

Section Summarize.

Variable set_iter : PySet.t -> list str.
Variable clock : Clock.

Definition summarize (transcript : Transcript) (format_type : str) : str :=
  let segments := get (tr_segments transcript) [] in
  if negb (nonempty segments) then no_content
  else
    let summary_data := _extract_summary_data set_iter segments in
    if str_eqb format_type (lit "md")
    then _format_markdown_summary clock summary_data transcript
    else if str_eqb format_type (lit "json")
    then _format_json_summary clock summary_data transcript
    else _format_text_summary clock summary_data transcript.

End Summarize.

End SummarizationService.

(** ** src/services/recording_service.py *)

(** What a call into the audio stack or the file system does: it returns
    or it raises. *)
Inductive Outcome (A : Type) :=
| Returned (value : A)
| Raised.

Arguments Returned {A} value.
Arguments Raised {A}.

(** How the machine answers while a recording is started and stopped:
    whether [pyaudio.PyAudio()] and [audio.open(...)] succeed, whether
    closing the stream and terminating PyAudio succeed, and whether the
    WAV file can be written. *)
Record Host := mkHost {
  pyaudio_ok : bool;
  open_ok : bool;
  teardown_ok : bool;
  save_ok : bool
}.

Module RecordingService.

Definition chunk := list Byte.byte.

Record State := mkState {
  sample_rate : Z;
  channels : Z;
  chunk_size : Z;
  audio : bool;              (* [self.audio is not None] *)
  stream : bool;             (* [self.stream is not None] *)
  frames : list chunk;
  is_recording : bool;
  recording_thread : bool;   (* the capture thread exists and runs *)
  output_path : option str;
  written : list (str * list chunk)   (* WAV files written so far *)
}.

(** [RecordingService()] *)
Definition init : State :=
  mkState 44100%Z 1%Z 1024%Z false false [] false false None [].

Definition set_recording (b : bool) (st : State) : State :=
  mkState (sample_rate st) (channels st) (chunk_size st) (audio st)
    (stream st) (frames st) b (recording_thread st) (output_path st)
    (written st).

Definition start_recording (host : Host) (path : option str) (st : State)
    : State * Outcome unit :=
  if is_recording st then (st, Returned tt)          (* "Already recording!" *)
  else
    let st1 := mkState (sample_rate st) (channels st) (chunk_size st)
                 (audio st) (stream st) [] true (recording_thread st)
                 path (written st) in
    if negb (pyaudio_ok host) then (st1, Raised)
    else
      let st2 := mkState (sample_rate st1) (channels st1) (chunk_size st1)
                   true (stream st1) (frames st1) (is_recording st1)
                   (recording_thread st1) (output_path st1) (written st1) in
      if negb (open_ok host) then (st2, Raised)
      else
        (mkState (sample_rate st2) (channels st2) (chunk_size st2)
           true true (frames st2) (is_recording st2) true
           (output_path st2) (written st2),
         Returned tt).

(** One turn of [_record_loop]: [data] is the chunk read from the stream,
    or [None] when the read raises and the loop breaks. *)
Definition record_chunk (data : option chunk) (st : State) : State :=
  if is_recording st && recording_thread st then
    match data with
    | Some d =>
        mkState (sample_rate st) (channels st) (chunk_size st) (audio st)
          (stream st) (frames st ++ [d]) (is_recording st)
          (recording_thread st) (output_path st) (written st)
    | None =>
        mkState (sample_rate st) (channels st) (chunk_size st) (audio st)
          (stream st) (frames st) (is_recording st) false
          (output_path st) (written st)
    end
  else st.

(** [_save_recording] *)
Definition _save_recording (host : Host) (path : str) (st : State)
    : State * Outcome unit :=
  if save_ok host then
    (mkState (sample_rate st) (channels st) (chunk_size st) (audio st)
       (stream st) (frames st) (is_recording st) (recording_thread st)
       (output_path st) (written st ++ [(path, frames st)]),
     Returned tt)
  else (st, Raised).

Definition stop_recording (host : Host) (st : State)
    : State * Outcome (option str) :=
  if negb (is_recording st) then (st, Returned None)
  else
    (* the flag is cleared and the capture thread is joined; the chunk
       whose read is under way at that moment is taken to be in [frames]
       already *)
    let st1 := mkState (sample_rate st) (channels st) (chunk_size st)
                 (audio st) (stream st) (frames st) false false
                 (output_path st) (written st) in
    if (stream st1 || audio st1) && negb (teardown_ok host)
    then (st1, Raised)
    else
      match output_path st1 with
      | Some path =>
          if truthy path && nonempty (frames st1) then
            match _save_recording host path st1 with
            | (st2, Returned _) => (st2, Returned (Some path))
            | (st2, Raised) => (st2, Returned None)
            end
          else (st1, Returned None)
      | None => (st1, Returned None)
      end.

(** [is_currently_recording] *)
Definition is_currently_recording (st : State) : bool := is_recording st.

End RecordingService.

(** ** src/services/transcription_service.py *)

(** What opening and reading the audio file gives: an exception with its
    message, or the audio, whose source may carry a [DURATION]. *)
Inductive AudioSource :=
| Unreadable (message : str)
| Audio (duration : option Number).

(** What [recognize_google] gives: the text, [sr.UnknownValueError],
    [sr.RequestError] with its message, or any other exception. *)
Inductive Recognition :=
| Recognized (text : str)
| UnknownValue
| RequestFailed (detail : str)
| Crashed (message : str).

Module TranscriptionService.

(** A call that returns, or raises an exception with a message. *)
Inductive Attempt (A : Type) :=
| Done (value : A)
| Failed (message : str).

Arguments Done {A} value.
Arguments Failed {A} message.

Definition spanning (duration : Number) (speaker text : str)
    (confidence : string) : Segment :=
  mkSegment (Some speaker) (Some text) (Some (NFloat (lit "0.0")))
    (Some duration) (Some (NFloat (lit confidence))).

Definition _transcribe_segmented (recognition : Recognition)
    (duration : Number) : Attempt (list Segment) :=
  match recognition with
  | Recognized text =>
      Done [spanning duration (lit "Speaker 1") text "0.8"]
  | UnknownValue =>
      Done [spanning duration (lit "Unknown") (lit "[Inaudible]") "0.0"]
  | RequestFailed e =>
      Done [spanning duration (lit "Error")
              (lit "[Transcription service error: " ++ e ++ lit "]") "0.0"]
  | Crashed message => Failed message
  end.

Definition failure (audio_path message : str) : Transcript :=
  mkTranscript (Some audio_path) None None (Some []) (Some message).

Definition transcribe_with_diarization (clock : Clock) (source : AudioSource)
    (recognition : Recognition) (audio_path : str) : Transcript :=
  match source with
  | Unreadable message => failure audio_path message
  | Audio source_duration =>
      let duration := get source_duration (NInt 30) in
      match _transcribe_segmented recognition duration with
      | Done transcript =>
          mkTranscript (Some audio_path) (Some duration)
            (Some (now_iso clock)) (Some transcript) None
      | Failed message => failure audio_path message
      end
  end.

(** [transcribe_realtime]: only the two recognition errors are caught. *)
Definition transcribe_realtime (recognition : Recognition)
    : Attempt (option str) :=
  match recognition with
  | Recognized text => Done (Some text)
  | UnknownValue => Done None
  | RequestFailed _ => Done None
  | Crashed message => Failed message
  end.

End TranscriptionService.

(** ** src/core/app.py *)

Module TabletopNotetakerApp.

Record App := mkApp {
  recording_service : RecordingService.State;
  is_recording : bool;
  current_recording_path : option str;
  recordings : list str
}.

(** [TabletopNotetakerApp()] *)
Definition init : App := mkApp RecordingService.init false None [].

Section WithHost.

Variable host : Host.
Variable clock : Clock.

(** [str(Path(p))]: pathlib's normal form of a path string. *)
Variable path_str : str -> str.

Definition start_recording (output_path : option str) (app : App)
    : App * bool :=
  let path :=
    match output_path with
    | Some p => if truthy p then path_str p
                else path_str (lit "recording_" ++ now_compact clock ++ lit ".wav")
    | None => path_str (lit "recording_" ++ now_compact clock ++ lit ".wav")
    end in
  match RecordingService.start_recording host (Some path)
          (recording_service app) with
  | (svc, Returned _) => (mkApp svc true (Some path) (recordings app), true)
  | (svc, Raised) =>
      (mkApp svc (is_recording app) (Some path) (recordings app), false)
  end.

Definition stop_recording (app : App) : App * option str :=
  if is_recording app then
    match RecordingService.stop_recording host (recording_service app) with
    | (svc, Returned _) =>
        match current_recording_path app with
        | Some path =>
            (mkApp svc false (Some path) (recordings app ++ [path]),
             Some path)
        | None => (mkApp svc false None (recordings app), Some (lit "None"))
        end
    | (svc, Raised) =>
        (mkApp svc (is_recording app) (current_recording_path app)
           (recordings app), None)
    end
  else (app, None).

(** The text [_save_as_text] writes to the file. *)
Definition write_segment (file : str) (segment : Segment) : str :=
  let speaker := speaker_of segment in
  let text := text_of segment in
  if truthy text
  then file ++ lit "[" ++ speaker ++ lit "]: " ++ text ++ [newline]
  else file.

Definition _save_as_text (transcript : Transcript) : str :=
  let file :=
    (lit "Meeting Transcript" ++ [newline])
    ++ (lit "Date: " ++ now_pretty clock ++ [newline; newline]) in
  fold_left write_segment (get (tr_segments transcript) []) file.

(** The file [_save_as_text] leaves on the platform: it is opened in text
    mode. *)
Definition saved_text_file (platform : TextFile.Platform)
    (transcript : Transcript) : str :=
  TextFile.write_text platform (_save_as_text transcript).

(** The body of the loop of [_save_as_markdown]: the text written so far
    and [current_speaker]. *)
Definition write_markdown_segment (state : str * option str)
    (segment : Segment) : str * option str :=
  let speaker := speaker_of segment in
  let text := text_of segment in
  if truthy text then
    let state :=
      match snd state with
      | Some current =>
          if str_eqb speaker current then state
          else (fst state ++ [newline] ++ lit "## " ++ speaker
                ++ [newline; newline], Some speaker)
      | None =>
          (fst state ++ [newline] ++ lit "## " ++ speaker
           ++ [newline; newline], Some speaker)
      end in
    (fst state ++ text ++ [newline], snd state)
  else state.

(** The text [_save_as_markdown] writes to the file. *)
Definition _save_as_markdown (transcript : Transcript) : str :=
  let file :=
    (lit "# Meeting Transcript" ++ [newline; newline])
    ++ (lit "**Date:** " ++ now_pretty clock ++ [newline; newline]) in
  fst (fold_left write_markdown_segment (get (tr_segments transcript) [])
         (file, None)).


(** [summarize_transcript] *)
Definition summarize_transcript (set_iter : PySet.t -> list str)
    (transcript : Transcript) (format_type : str) : str :=
  SummarizationService.summarize set_iter clock transcript format_type.

End WithHost.

End TabletopNotetakerApp.

(** ** src/ui/cli.py *)

Module CLIInterface.

Definition placeholder : Number := NFloat (lit "0.0").

(** The body of [for line in lines]. *)
Definition parse_line (segments : list Segment) (line : str)
    : list Segment :=
  let line := strip line in
  if truthy line && contains (lit "[") line && contains (lit "]:") line
  then
    let speaker_end := find (lit "]:") line in
    let speaker := strip (slice line 1 speaker_end) in
    let text := strip (slice_from line (speaker_end + 2)) in
    segments ++ [mkSegment (Some speaker) (Some text)
                   (Some placeholder) (Some placeholder) None]
  else segments.

Definition _parse_transcript_file (content : str) : Transcript :=
  let lines := split_char newline content in
  let segments := fold_left parse_line lines [] in
  mkTranscript None (Some (NInt (Z.of_nat (length segments) * 10))) None
    (Some segments) None.

(** [summarize_file], up to the transcript: the file is read in text mode
    and its content parsed. *)
Definition read_transcript (file : str) : Transcript :=
  _parse_transcript_file (TextFile.read_text file).

(** What one turn of the loop of [run] does with the line typed. *)
Inductive Action :=
| Quit
| StartRecording
| StopRecording
| TranscribeFile (audio_path : str)
| TranscribeUsage
| SummarizeFile (transcript_path : str)
| SummarizeUsage
| ListRecordings
| ShowHelp
| UnknownCommand.

Definition dispatch (typed : str) : Action :=
  let command := lower (strip typed) in
  if str_eqb command (lit "quit") || str_eqb command (lit "q") then Quit
  else if str_eqb command (lit "record") || str_eqb command (lit "r")
  then StartRecording
  else if str_eqb command (lit "stop") || str_eqb command (lit "s")
  then StopRecording
  else if startswith (lit "transcribe") command then
    match split_ws command with
    | _ :: path :: _ => TranscribeFile path
    | _ => TranscribeUsage
    end
  else if startswith (lit "summarize") command then
    match split_ws command with
    | _ :: path :: _ => SummarizeFile path
    | _ => SummarizeUsage
    end
  else if str_eqb command (lit "list") || str_eqb command (lit "l")
  then ListRecordings
  else if str_eqb command (lit "help") || str_eqb command (lit "h")
  then ShowHelp
  else UnknownCommand.

(** The format [summarize_transcript] settles on for the answer typed. *)
Definition format_choice (answer : str) : str :=
  let choice := lower (strip answer) in
  if mem choice [lit "txt"; lit "md"; lit "json"] then choice else lit "txt".

(** [summarize_transcript]: the file written, as (path, content), or
    nothing when the summary is empty. *)
Definition summarize_transcript (set_iter : PySet.t -> list str)
    (clock : Clock) (transcript : Transcript) (answer : str)
    : option (str * str) :=
  let format_choice := format_choice answer in
  let summary :=
    SummarizationService.summarize set_iter clock transcript format_choice in
  if truthy summary
  then Some (lit "meeting_summary" ++ lit "." ++ format_choice, summary)
  else None.

End CLIInterface.

(** ** src/ui/gui.py *)

Module GUIInterface.

(** The body of [for segment in segments] of [_display_transcript]. *)
Definition insert_segment (shown : str) (segment : Segment) : str :=
  let speaker := speaker_of segment in
  let text := text_of segment in
  if truthy text
  then shown ++ lit "[" ++ speaker ++ lit "]: " ++ text ++ [newline]
  else shown.

(** [_display_transcript]: the content of the output area afterwards. *)
Definition _display_transcript (transcript : Transcript) : str :=
  let segments := get (tr_segments transcript) [] in
  if negb (nonempty segments) then lit "No transcript content." ++ [newline]
  else fold_left insert_segment segments [].

(** The application and the two flags the window keeps. *)
Record State := mkState {
  app : TabletopNotetakerApp.App;
  recording : bool;
  current_file : option str
}.

Definition init : State := mkState TabletopNotetakerApp.init false None.

Section WithHost.

Variable host : Host.
Variable clock : Clock.
Variable path_str : str -> str.

Definition _start_recording (st : State) : State :=
  let filename := lit "recording_" ++ now_compact clock ++ lit ".wav" in
  match TabletopNotetakerApp.start_recording host clock path_str
          (Some filename) (app st) with
  | (app', true) => mkState app' true (Some filename)
  | (app', false) => mkState app' (recording st) (current_file st)
  end.

Definition _stop_recording (st : State) : State :=
  match TabletopNotetakerApp.stop_recording host (app st) with
  | (app', Some result) =>
      if truthy result then mkState app' false (current_file st)
      else mkState app' (recording st) (current_file st)
  | (app', None) => mkState app' (recording st) (current_file st)
  end.

Definition _toggle_recording (st : State) : State :=
  if negb (recording st) then _start_recording st else _stop_recording st.

End WithHost.

End GUIInterface.

(** * The vocabulary of the properties *)

Import SummarizationService.

(** The distinct members of a list, in order of first appearance: what a
    sequence of [add] calls leaves in a set. *)
Definition distinct (l : list str) : list str :=
  fold_left (fun s x => PySet.add x s) l PySet.empty.

(** Position of the first occurrence of [x] in [l] ([length l] if none). *)
Fixpoint index_of (x : str) (l : list str) : nat :=
  match l with
  | [] => 0
  | y :: l' => if str_eq_dec x y then 0 else S (index_of x l')
  end.

(** [a] stands somewhere before [b] in [l]. *)
Fixpoint precedes {A} (a b : A) (l : list A) : Prop :=
  match l with
  | [] => False
  | x :: l' => (x = a /\ In b l') \/ precedes a b l'
  end.

(** The segments that take part in summarisation and rendering. *)
Definition has_text (segment : Segment) : bool := truthy (text_of segment).

(** The corpus: the trimmed non-empty texts, joined by one space. *)
Definition corpus (segments : list Segment) : str :=
  join (lit " ") (map text_of (filter has_text segments)).

(** A word that [_extract_keywords] counts. *)
Definition counted (word : str) : bool :=
  (3 <? length word) && negb (mem word common_words).

(** An enumeration order a set may have: the members, each once. *)
Definition set_order (set_iter : PySet.t -> list str) : Prop :=
  forall s, NoDup s -> Permutation (set_iter s) s.

(** The dictionary with keys [keys], in that order, and values [f]. *)
Definition tabulate (f : str -> nat) (keys : list str) : PyDict.t :=
  map (fun w => (w, f w)) keys.

(** Counts never increase along the list. *)
Definition descending (l : PyDict.t) : Prop :=
  forall a b, precedes a b l -> snd b <= snd a.

(** The lines of [lines] that are section headers, in order. *)
Definition header_lines (headers lines : list str) : list str :=
  filter (fun line => mem line headers) lines.

(** Every header line of [lines] has a non-empty line right under it. *)
Fixpoint headed (headers lines : list str) : Prop :=
  match lines with
  | [] => True
  | line :: rest =>
      (mem line headers = true ->
       match rest with
       | under :: _ => under <> []
       | [] => False
       end)
      /\ headed headers rest
  end.

(** A character of a keywords line: a word character, a comma or a space. *)
Definition plain (c : ascii) : bool :=
  isword c || (code c =? 44) || (code c =? 32).

Definition text_headers : list str :=
  [lit "SUMMARY:"; lit "KEY POINTS:"; lit "ACTION ITEMS:";
   lit "TOPICS/KEYWORDS:"].

Definition markdown_headers : list str :=
  [lit "## Summary"; lit "## Key Points"; lit "## Action Items";
   lit "## Topics/Keywords"].

(** The headers of the optional sections that have content, in order. *)
Definition headers_with_content (headers : list str) (data : SummaryData)
    : list str :=
  map fst
    (filter snd
       (combine headers
          [ truthy (summary_text data); nonempty (key_points data);
            nonempty (action_items data); nonempty (keywords data) ])).

(** The segment a parsed line stands for. *)
Definition parsed (speaker text : str) : Segment :=
  mkSegment (Some speaker) (Some text)
    (Some CLIInterface.placeholder) (Some CLIInterface.placeholder) None.

(** The line [_save_as_text] writes for a segment that has text. *)
Definition written_line (segment : Segment) : str :=
  lit "[" ++ speaker_of segment ++ lit "]: " ++ text_of segment ++ [newline].

(** The characters ['%Y-%m-%d %H:%M:%S'] produces: digits, dash, colon
    and space. *)
Definition date_like (s : str) : bool :=
  forallb (fun c => between 48 57 (code c) || (code c =? 45)
                    || (code c =? 58) || (code c =? 32)) s.

(** A segment whose written line reads back as it was: the speaker label
    is trimmed and holds neither ["]:"] nor a line break, and the trimmed
    text holds no line break. *)
Definition reads_back (segment : Segment) : Prop :=
  strip (speaker_of segment) = speaker_of segment
  /\ contains (lit "]:") (speaker_of segment) = false
  /\ ~ In newline (speaker_of segment)
  /\ ~ In newline (text_of segment).

(** The (speaker, text) pair a segment dictionary holds. *)
Definition held_pair (segment : Segment) : str * str :=
  (speaker_of segment, get (seg_text segment) []).

(** The (speaker, trimmed text) pair of a segment. *)
Definition trimmed_pair (segment : Segment) : str * str :=
  (speaker_of segment, text_of segment).

Definition line_of (segment : Segment) : str :=
  lit "[" ++ speaker_of segment ++ lit "]: " ++ text_of segment.

(** The tokens of a text: what [_extract_keywords] counts over. *)
Definition tokens (text : str) : list str := re_findall_words (lower text).

(** Every word of [ks] occurs more than once among [words]; a word that
    stands before another in [ks] is at least as frequent, and when the two
    are equally frequent it occurs first in [words]. *)
Definition frequent_and_ordered (words ks : list str) : Prop :=
  (forall k, In k ks -> 1 < count_occ str_eq_dec words k)
  /\ (forall l1 a l2 b l3, ks = l1 ++ a :: l2 ++ b :: l3 ->
        count_occ str_eq_dec words b <= count_occ str_eq_dec words a
        /\ (count_occ str_eq_dec words a = count_occ str_eq_dec words b ->
            index_of a words < index_of b words)).

(** A segment that survives being written to a text file and read back:
    its written line reads back as it was, and neither its speaker label
    nor its trimmed text holds a carriage return. *)
Definition survives_file (segment : Segment) : Prop :=
  reads_back segment
  /\ ~ In TextFile.carriage_return (speaker_of segment)
  /\ ~ In TextFile.carriage_return (text_of segment).

(** The (speaker, text) pairs read back from the transcript file written
    on the platform. *)
Definition read_back_pairs (platform : TextFile.Platform) (clock : Clock)
    (transcript : Transcript) : list (str * str) :=
  map held_pair
    (get (tr_segments
            (CLIInterface.read_transcript
               (TabletopNotetakerApp.saved_text_file clock platform
                  transcript))) []).

(** The (speaker, trimmed text) pairs of the segments that have text. *)
Definition kept_pairs (transcript : Transcript) : list (str * str) :=
  map trimmed_pair (filter has_text (get (tr_segments transcript) [])).

(** Following the spec's words: "everything between the first '[' and the
    first following ']:'", when the line has both. *)
Definition between_brackets (line : str) : option str :=
  match index_from (lit "[") line with
  | None => None
  | Some i =>
      let after := skipn (S i) line in
      match index_from (lit "]:") after with
      | None => None
      | Some j => Some (firstn j after)
      end
  end.

(** A segment whose text sets off the action-item heuristic. *)
Definition marked (segment : Segment) : bool :=
  existsb (fun word => contains word (lower (text_of segment))) action_markers.

(** The action item a segment gives. *)
Definition action_item (segment : Segment) : str :=
  speaker_of segment ++ lit ": " ++ text_of segment.

(** A string without ['.'], ['!'] and ['?']. *)
Definition no_terminator (s : str) : bool :=
  forallb (fun c => negb (is_terminator c)) s.

(** The segment that holds just a speaker and a text. *)
Definition plain_segment (pair : str * str) : Segment :=
  mkSegment (Some (fst pair)) (Some (snd pair)) None None None.

(** The maximal groups of consecutive segments by the same speaker, each
    with its speaker. *)
Fixpoint runs (segments : list Segment) : list (str * list Segment) :=
  match segments with
  | [] => []
  | s :: rest =>
      match runs rest with
      | (speaker, group) :: more =>
          if str_eqb (speaker_of s) speaker
          then (speaker, s :: group) :: more
          else (speaker_of s, [s]) :: (speaker, group) :: more
      | [] => [(speaker_of s, [s])]
      end
  end.

(** Neighbouring groups have different speakers. *)
Fixpoint speakers_alternate (groups : list (str * list Segment)) : Prop :=
  match groups with
  | a :: (b :: _) as rest => fst a <> fst b /\ speakers_alternate rest
  | _ => True
  end.

(** What the Markdown transcript holds for one group: the heading and one
    line per segment. *)
Definition markdown_block (group : str * list Segment) : str :=
  ([newline] ++ lit "## " ++ fst group ++ [newline; newline])
  ++ flat_map (fun s => text_of s ++ [newline]) (snd group).

Definition markdown_title (clock : Clock) : str :=
  (lit "# Meeting Transcript" ++ [newline; newline])
  ++ (lit "**Date:** " ++ now_pretty clock ++ [newline; newline]).

(** The service after the capture loop has read [chunks], one by one. *)
Definition capture (chunks : list RecordingService.chunk)
    (st : RecordingService.State) : RecordingService.State :=
  fold_left (fun st data => RecordingService.record_chunk (Some data) st)
    chunks st.

(** The application while its recording service captures [chunks]. *)
Definition app_capture (chunks : list RecordingService.chunk)
    (app : TabletopNotetakerApp.App) : TabletopNotetakerApp.App :=
  TabletopNotetakerApp.mkApp
    (capture chunks (TabletopNotetakerApp.recording_service app))
    (TabletopNotetakerApp.is_recording app)
    (TabletopNotetakerApp.current_recording_path app)
    (TabletopNotetakerApp.recordings app).

(** The window after a series of clicks on the record button, each on the
    machine and at the time given. *)
Definition clicks (path_str : str -> str) (steps : list (Host * Clock))
    (st : GUIInterface.State) : GUIInterface.State :=
  fold_left
    (fun st step =>
       GUIInterface._toggle_recording (fst step) (snd step) path_str st)
    steps st.

(** The title [_save_as_text] writes before the segments. *)
Definition text_title (clock : Clock) : str :=
  (lit "Meeting Transcript" ++ [newline])
  ++ (lit "Date: " ++ now_pretty clock ++ [newline; newline]).

(** What the window's recording flag must agree with, and what the
    application's current path must be: never empty. *)
Definition window_in_step (st : GUIInterface.State) : Prop :=
  GUIInterface.recording st
  = TabletopNotetakerApp.is_recording (GUIInterface.app st)
  /\ forall p,
       TabletopNotetakerApp.current_recording_path (GUIInterface.app st)
       = Some p -> p <> [].

(** ** Sample inputs *)

Definition said (speaker text : string) : Segment :=
  mkSegment (Some (lit speaker)) (Some (lit text)) None None None.

(** The transcript of tests/test_app.py. *)
Definition meeting : list Segment :=
  [ said "Alice" "Hello everyone, let's start the meeting.";
    said "Bob" "I think we should discuss the new project timeline.";
    said "Alice" "Good idea. We need to finish by next Friday." ].

Definition noon : Clock :=
  mkClock (lit "2024-05-17 12:00:00") (lit "20240517_120000")
    (lit "2024-05-17T12:00:00").

Definition insertion_order : PySet.t -> list str := fun s => s.

Definition reverse_order : PySet.t -> list str := @rev str.

(** A transcript whose only segment has blank text. *)
Definition silence : Transcript :=
  mkTranscript None None None (Some [said "Alice" "   "]) None.

(** A transcript with one segment. *)
Definition spoken (speaker text : str) : Transcript :=
  mkTranscript None None None
    (Some [mkSegment (Some speaker) (Some text) None None None]) None.

(** A machine on which every audio and file operation succeeds. *)
Definition studio : Host := mkHost true true true true.

(** [str(Path(p))] on paths that are already in normal form. *)
Definition same_path : str -> str := fun p => p.

(** The application right after [start_recording("session1.wav")]. *)
Definition recording_session1 : TabletopNotetakerApp.App :=
  fst (TabletopNotetakerApp.start_recording studio noon same_path
         (Some (lit "session1.wav")) TabletopNotetakerApp.init).

(** The test transcript with a blank segment put in and the texts padded
    with white space. *)
Definition padded_meeting : list Segment :=
  [ said "Alice" "  Hello everyone, let's start the meeting.";
    said "Carol" "   ";
    said "Bob" "I think we should discuss the new project timeline.  ";
    said "Alice" " Good idea. We need to finish by next Friday. " ].

(** [str(Path(p))] with the one normalisation that matters for emptiness:
    the empty path is written ["."]. *)
Definition dot_path : str -> str :=
  fun p => match p with [] => lit "." | _ :: _ => p end.

(** * Supporting lemmas *)

Arguments ascii_dec : simpl never.

(** ** Lists *)

Lemma mem_true_iff x l : mem x l = true <-> In x l.
Proof. unfold mem. destruct (in_dec str_eq_dec x l); split; auto; discriminate. Qed.

Lemma mem_false_iff x l : mem x l = false <-> ~ In x l.
Proof. unfold mem. destruct (in_dec str_eq_dec x l); split; auto; try discriminate; contradiction. Qed.

Lemma truthy_false (s : str) : truthy s = false <-> s = [].
Proof. destruct s; simpl; split; congruence. Qed.

Lemma truthy_true (s : str) : truthy s = true <-> s <> [].
Proof. destruct s; simpl; split; congruence. Qed.

Lemma nonempty_false {A} (l : list A) : nonempty l = false <-> l = [].
Proof. destruct l; simpl; split; congruence. Qed.

Lemma firstn_le_length {A} n (l : list A) : length (firstn n l) <= n.
Proof. rewrite length_firstn. apply Nat.le_min_l. Qed.

Lemma precedes_split {A} (a b : A) l1 l2 l3 :
  precedes a b (l1 ++ a :: l2 ++ b :: l3).
Proof.
  induction l1 as [|x l1 IH]; simpl.
  - left. split; [reflexivity|]. apply in_or_app. right. now left.
  - now right.
Qed.

Lemma precedes_In {A} (a b : A) l : precedes a b l -> In a l /\ In b l.
Proof.
  induction l as [|x l IH]; simpl; [tauto|].
  intros [[-> Hb]|H]; [tauto|]. destruct (IH H). tauto.
Qed.

Lemma precedes_head {A} (a b : A) l : In b l -> precedes a b (a :: l).
Proof. simpl. auto. Qed.

Lemma precedes_snoc {A} (a b w : A) l :
  precedes a b (l ++ [w]) -> precedes a b l \/ (b = w /\ In a l).
Proof.
  induction l as [|x l IH]; simpl.
  - intros [[_ []]|[]].
  - intros [[-> Hb]|H].
    + apply in_app_or in Hb. destruct Hb as [Hb|[<-|[]]]; auto.
    + destruct (IH H) as [H'|[-> Ha]]; auto.
Qed.

Lemma precedes_filter {A} (p : A -> bool) (a b : A) l :
  precedes a b (filter p l) -> precedes a b l.
Proof.
  induction l as [|x l IH]; simpl; [tauto|].
  destruct (p x); simpl; [|auto].
  intros [[-> Hb]|H]; [|auto].
  left. split; [reflexivity|]. now apply filter_In in Hb.
Qed.

Lemma precedes_firstn {A} n (a b : A) l :
  precedes a b (firstn n l) -> precedes a b l.
Proof.
  revert n. induction l as [|x l IH]; intros [|n]; simpl; try tauto.
  intros [[-> Hb]|H]; [|eauto].
  left. split; [reflexivity|]. rewrite <- (firstn_skipn n l).
  apply in_or_app. now left.
Qed.

Lemma precedes_map {A B} (f : A -> B) (x y : B) l :
  precedes x y (map f l) ->
  exists a b, f a = x /\ f b = y /\ precedes a b l.
Proof.
  induction l as [|z l IH]; simpl; [tauto|].
  intros [[<- Hy]|H].
  - apply in_map_iff in Hy. destruct Hy as [b [<- Hb]].
    exists z, b. auto.
  - destruct (IH H) as [a [b [? [? ?]]]]. exists a, b. auto.
Qed.

(** ** Sets and first appearance *)

Lemma distinct_snoc l w : distinct (l ++ [w]) = PySet.add w (distinct l).
Proof. unfold distinct. now rewrite fold_left_app. Qed.

Lemma distinct_In l x : In x (distinct l) <-> In x l.
Proof.
  revert x. induction l as [|w l IH] using rev_ind; intros x; [simpl; tauto|].
  rewrite distinct_snoc. unfold PySet.add.
  destruct (mem w (distinct l)) eqn:E; rewrite ?in_app_iff, IH; simpl.
  - apply mem_true_iff in E. apply IH in E.
    split; [tauto|]. intros [H|[<-|[]]]; auto.
  - tauto.
Qed.

Lemma distinct_NoDup l : NoDup (distinct l).
Proof.
  induction l as [|w l IH] using rev_ind; [constructor|].
  rewrite distinct_snoc. unfold PySet.add.
  destruct (mem w (distinct l)) eqn:E; [assumption|].
  apply mem_false_iff in E.
  apply NoDup_rev in IH. rewrite <- (rev_involutive (_ ++ _)).
  apply NoDup_rev. rewrite rev_app_distr. simpl. constructor; [|assumption].
  now rewrite <- in_rev.
Qed.

Lemma index_of_lt x l : In x l -> index_of x l < length l.
Proof.
  induction l as [|y l IH]; simpl; [tauto|].
  destruct (str_eq_dec x y); [lia|].
  intros [->|H]; [congruence|]. apply IH in H. lia.
Qed.

Lemma index_of_app_l x l l' : In x l -> index_of x (l ++ l') = index_of x l.
Proof.
  induction l as [|y l IH]; simpl; [tauto|].
  destruct (str_eq_dec x y); [reflexivity|].
  intros [->|H]; [congruence|]. now rewrite IH.
Qed.

Lemma index_of_app_r x l l' :
  ~ In x l -> index_of x (l ++ l') = length l + index_of x l'.
Proof.
  induction l as [|y l IH]; simpl; [reflexivity|].
  intros H. destruct (str_eq_dec x y); [subst; tauto|].
  rewrite IH; tauto.
Qed.

Lemma distinct_order l a b :
  precedes a b (distinct l) -> index_of a l < index_of b l.
Proof.
  induction l as [|w l IH] using rev_ind; [simpl; tauto|].
  rewrite distinct_snoc. unfold PySet.add.
  destruct (mem w (distinct l)) eqn:E.
  - intros H. pose proof (precedes_In _ _ _ H) as [Ha Hb].
    apply -> distinct_In in Ha. apply -> distinct_In in Hb.
    rewrite !index_of_app_l by assumption. auto.
  - apply mem_false_iff in E. rewrite distinct_In in E.
    intros H. apply precedes_snoc in H. destruct H as [H|[-> Ha]].
    + pose proof (precedes_In _ _ _ H) as [Ha Hb].
      apply -> distinct_In in Ha. apply -> distinct_In in Hb.
      rewrite !index_of_app_l by assumption. auto.
    + apply -> distinct_In in Ha.
      rewrite index_of_app_l by assumption.
      rewrite index_of_app_r by assumption.
      apply index_of_lt in Ha. lia.
Qed.

Lemma index_of_filter (p : str -> bool) a b l :
  p a = true -> p b = true ->
  index_of a (filter p l) < index_of b (filter p l) ->
  index_of a l < index_of b l.
Proof.
  intros Pa Pb. induction l as [|x l IH]; simpl; [lia|].
  destruct (p x) eqn:Px; simpl.
  - destruct (str_eq_dec a x), (str_eq_dec b x); lia.
  - destruct (str_eq_dec a x); [congruence|].
    destruct (str_eq_dec b x); [congruence|].
    intros H. apply IH in H. lia.
Qed.

Lemma count_occ_filter (p : str -> bool) l x :
  p x = true ->
  count_occ str_eq_dec (filter p l) x = count_occ str_eq_dec l x.
Proof.
  intros Px. induction l as [|y l IH]; simpl; [reflexivity|].
  destruct (p y) eqn:Py; simpl; destruct (str_eq_dec y x); subst;
    try congruence; auto.
Qed.

(** ** The word-count dictionary *)

Lemma get_or_tabulate f keys w :
  PyDict.get_or (tabulate f keys) w 0 = if mem w keys then f w else 0.
Proof.
  induction keys as [|x keys IH]; simpl; [reflexivity|].
  destruct (str_eq_dec w x) as [->|Hne].
  - assert (H : mem x (x :: keys) = true) by (apply mem_true_iff; now left).
    now rewrite H.
  - rewrite IH. destruct (mem w keys) eqn:E.
    + assert (H : mem w (x :: keys) = true).
      { apply mem_true_iff. right. now apply mem_true_iff. }
      now rewrite H.
    + assert (H : mem w (x :: keys) = false).
      { apply mem_false_iff. apply mem_false_iff in E. simpl. intuition congruence. }
      now rewrite H.
Qed.

Lemma set_tabulate_new f keys w v :
  ~ In w keys -> PyDict.set (tabulate f keys) w v = tabulate f keys ++ [(w, v)].
Proof.
  induction keys as [|x keys IH]; simpl; [reflexivity|].
  intros H. destruct (str_eq_dec w x) as [->|Hne]; [tauto|].
  rewrite IH; tauto.
Qed.

Lemma set_tabulate_old f keys w v :
  NoDup keys -> In w keys ->
  PyDict.set (tabulate f keys) w v =
  tabulate (fun x => if str_eq_dec x w then v else f x) keys.
Proof.
  induction keys as [|x keys IH]; simpl; [tauto|].
  intros Hnd Hin. inversion Hnd as [|? ? Hx Hnd']; subst.
  destruct (str_eq_dec w x) as [->|Hne].
  - destruct (str_eq_dec x x); [|congruence]. f_equal.
    apply map_ext_in. intros y Hy.
    destruct (str_eq_dec y x); [subst; tauto|reflexivity].
  - destruct (str_eq_dec x w); [congruence|]. f_equal.
    apply IH; [assumption|]. destruct Hin; [congruence|assumption].
Qed.

Lemma count_words_spec words :
  fold_left count_word words [] =
  tabulate (count_occ str_eq_dec (filter counted words))
    (distinct (filter counted words)).
Proof.
  induction words as [|w words IH] using rev_ind; [reflexivity|].
  rewrite fold_left_app, filter_app. simpl. rewrite IH. clear IH.
  unfold count_word. fold (counted w).
  destruct (counted w) eqn:Hw; simpl; [|now rewrite !app_nil_r].
  set (ws := filter counted words).
  rewrite distinct_snoc, get_or_tabulate. unfold PySet.add.
  destruct (mem w (distinct ws)) eqn:E.
  - apply mem_true_iff in E.
    rewrite set_tabulate_old by (auto using distinct_NoDup).
    apply map_ext. intros x. f_equal.
    rewrite count_occ_app. simpl.
    destruct (str_eq_dec x w) as [->|Hne].
    + destruct (str_eq_dec w w); [reflexivity|congruence].
    + destruct (str_eq_dec w x); [congruence|lia].
  - apply mem_false_iff in E.
    rewrite set_tabulate_new by assumption.
    unfold tabulate. rewrite map_app. simpl. f_equal.
    + apply map_ext_in. intros x Hx. f_equal.
      rewrite count_occ_app. simpl.
      destruct (str_eq_dec w x); [subst; tauto|lia].
    + rewrite count_occ_app. simpl.
      destruct (str_eq_dec w w); [|congruence].
      rewrite distinct_In in E.
      apply (count_occ_not_In str_eq_dec) in E. rewrite E. reflexivity.
Qed.

(** ** The stable descending sort *)

Lemma insert_desc_In x y l :
  In y (PyDict.insert_desc x l) <-> y = x \/ In y l.
Proof.
  induction l as [|z l IH]; simpl; [intuition auto|].
  destruct (snd x <? snd z); simpl; rewrite ?IH; intuition auto.
Qed.

Lemma sorted_desc_In y l : In y (PyDict.sorted_desc l) <-> In y l.
Proof.
  induction l as [|x l IH]; simpl; [tauto|].
  rewrite insert_desc_In, IH. intuition auto.
Qed.

Lemma insert_desc_perm x l : Permutation (PyDict.insert_desc x l) (x :: l).
Proof.
  induction l as [|y l IH]; simpl; [apply Permutation_refl|].
  destruct (snd x <? snd y); [|apply Permutation_refl].
  apply perm_trans with (y :: x :: l); [now apply perm_skip|apply perm_swap].
Qed.

(** The sort rearranges the items and drops or adds none. *)
Lemma sorted_desc_perm l : Permutation (PyDict.sorted_desc l) l.
Proof.
  induction l as [|x l IH]; simpl; [apply Permutation_refl|].
  apply perm_trans with (x :: PyDict.sorted_desc l);
    [apply insert_desc_perm|now apply perm_skip].
Qed.

Lemma descending_tail x l : descending (x :: l) -> descending l.
Proof. intros H a b Hab. apply H. simpl. now right. Qed.

Lemma insert_desc_precedes x a b l :
  descending l ->
  precedes a b (PyDict.insert_desc x l) ->
  precedes a b l
  \/ (a = x /\ In b l /\ snd b <= snd x)
  \/ (b = x /\ In a l /\ snd x < snd a).
Proof.
  induction l as [|y l IH]; intros Hd; simpl.
  - intros [[_ []]|[]].
  - destruct (snd x <? snd y) eqn:E.
    + apply Nat.ltb_lt in E. simpl. intros [[<- Hb]|H].
      * apply insert_desc_In in Hb. destruct Hb as [->|Hb]; auto.
        right. right. auto.
      * destruct (IH (descending_tail _ _ Hd) H) as [H'|[[-> [Hb Hle]]|[-> [Ha Hlt]]]];
          auto 6.
    + apply Nat.ltb_ge in E. simpl. intros [[<- Hb]|H]; [|auto].
      right. left. split; [reflexivity|]. split; [assumption|].
      destruct Hb as [<-|Hb]; [assumption|].
      specialize (Hd y b (precedes_head _ _ _ Hb)). lia.
Qed.

Lemma sorted_desc_stable l a b :
  precedes a b (PyDict.sorted_desc l) ->
  snd b <= snd a /\ (snd a = snd b -> precedes a b l).
Proof.
  revert a b. induction l as [|x l IH]; simpl; [tauto|].
  intros a b H.
  assert (Hd : descending (PyDict.sorted_desc l)) by (intros u v Huv; now apply IH).
  destruct (insert_desc_precedes _ _ _ _ Hd H) as [H'|[[-> [Hb Hle]]|[-> [Ha Hlt]]]].
  - destruct (IH _ _ H'). split; auto.
  - apply -> sorted_desc_In in Hb. split; auto.
  - split; lia.
Qed.

(** The result does not depend on the sorting algorithm: on items without
    duplicates, a descending and stable rearrangement is the one
    [sorted_desc] computes. *)

Lemma precedes_total {A} (a b : A) l :
  In a l -> In b l -> a <> b -> precedes a b l \/ precedes b a l.
Proof.
  induction l as [|x l IH]; simpl; [tauto|].
  intros [->|Ha] [->|Hb] Hne; try congruence; auto.
  destruct (IH Ha Hb Hne); auto.
Qed.

Lemma precedes_antisym {A} (a b : A) l :
  NoDup l -> precedes a b l -> precedes b a l -> False.
Proof.
  induction l as [|x l IH]; simpl; [tauto|].
  intros Hnd. inversion Hnd as [|? ? Hx Hnd']; subst.
  intros [[-> Hb]|Hab] [[Hxb Ha]|Hba]; subst; try tauto.
  - apply precedes_In in Hba. tauto.
  - apply precedes_In in Hab. tauto.
Qed.

Lemma same_order_same_list {A} (l1 l2 : list A) :
  NoDup l1 -> NoDup l2 -> (forall x, In x l1 <-> In x l2) ->
  (forall a b, precedes a b l1 -> precedes a b l2) -> l1 = l2.
Proof.
  revert l2. induction l1 as [|x l1 IH]; intros l2 Hn1 Hn2 Hin Hord.
  - destruct l2 as [|y l2]; [reflexivity|].
    exfalso. apply (Hin y). now left.
  - inversion Hn1 as [|? ? Hx Hn1']; subst.
    destruct l2 as [|y l2]; [exfalso; apply (Hin x); now left|].
    inversion Hn2 as [|? ? Hy Hn2']; subst.
    assert (E : y = x).
    { assert (Hy1 : In y (x :: l1)) by (apply Hin; now left).
      destruct Hy1 as [Hy1|Hy1]; [congruence|].
      specialize (Hord x y (precedes_head x y l1 Hy1)). simpl in Hord.
      destruct Hord as [[E _]|H]; [assumption|].
      apply precedes_In in H. tauto. }
    subst y. f_equal. apply IH; try assumption.
    + intros z. specialize (Hin z). simpl in Hin. split; intros Hz.
      * destruct (proj1 Hin (or_intror Hz)) as [<-|]; tauto.
      * destruct (proj2 Hin (or_intror Hz)) as [<-|]; tauto.
    + intros a b Hab.
      assert (H : precedes a b (x :: l2)) by (apply Hord; simpl; auto).
      simpl in H. destruct H as [[<- _]|H]; [|assumption].
      apply precedes_In in Hab. tauto.
Qed.

Lemma sorted_desc_unique l l' :
  NoDup l -> Permutation l' l -> descending l' ->
  (forall a b, precedes a b l' -> snd a = snd b -> precedes a b l) ->
  l' = PyDict.sorted_desc l.
Proof.
  intros Hnd Hperm Hdesc Hstable.
  assert (Hnd' : NoDup l')
    by (apply (Permutation_NoDup (Permutation_sym Hperm)); assumption).
  assert (Hnds : NoDup (PyDict.sorted_desc l))
    by (apply (Permutation_NoDup (Permutation_sym (sorted_desc_perm l)));
        assumption).
  apply same_order_same_list; try assumption.
  - intros x. rewrite sorted_desc_In. split; apply Permutation_in;
      [assumption|now apply Permutation_sym].
  - intros a b Hab.
    pose proof (precedes_In _ _ _ Hab) as [Ha Hb].
    assert (Hne : a <> b).
    { intros ->. exact (precedes_antisym b b l' Hnd' Hab Hab). }
    destruct (precedes_total a b (PyDict.sorted_desc l)) as [H|H];
      try assumption.
    + apply sorted_desc_In. now apply (Permutation_in _ Hperm).
    + apply sorted_desc_In. now apply (Permutation_in _ Hperm).
    + exfalso. apply sorted_desc_stable in H. destruct H as [Hle Hst].
      pose proof (Hdesc a b Hab) as Hge.
      assert (Heq : snd a = snd b) by lia.
      apply (precedes_antisym a b l Hnd); [now apply Hstable|].
      apply Hst. now symmetry.
Qed.

(** ** Keywords *)

Section Keywords.

Variable text : str.

Let words := re_findall_words (lower text).
Let freq (w : str) : nat := count_occ str_eq_dec words w.

Lemma extract_keywords_unfold :
  _extract_keywords text =
  map fst (filter (fun item => 1 <? snd item)
             (PyDict.sorted_desc
                (tabulate (count_occ str_eq_dec (filter counted words))
                   (distinct (filter counted words))))).
Proof. unfold _extract_keywords. now rewrite count_words_spec. Qed.

Lemma tabulate_item item :
  In item (tabulate (count_occ str_eq_dec (filter counted words))
             (distinct (filter counted words))) ->
  snd item = freq (fst item) /\ counted (fst item) = true
  /\ In (fst item) words.
Proof.
  intros H. apply in_map_iff in H. destruct H as [w [<- Hw]]. simpl.
  apply -> distinct_In in Hw. apply filter_In in Hw. destruct Hw as [Hin Hc].
  split; [|auto]. now apply count_occ_filter.
Qed.

Lemma keyword_counted k :
  In k (_extract_keywords text) ->
  counted k = true /\ In k words /\ 1 < freq k.
Proof.
  rewrite extract_keywords_unfold. intros H.
  apply in_map_iff in H. destruct H as [item [<- H]].
  apply filter_In in H. destruct H as [H Hgt].
  apply -> sorted_desc_In in H. apply tabulate_item in H.
  destruct H as [Hs [Hc Hin]]. apply Nat.ltb_lt in Hgt.
  rewrite <- Hs. auto.
Qed.

Lemma keyword_order a b :
  precedes a b (_extract_keywords text) ->
  freq b <= freq a /\ (freq a = freq b -> index_of a words < index_of b words).
Proof.
  rewrite extract_keywords_unfold. intros H.
  apply precedes_map in H. destruct H as [ia [ib [<- [<- H]]]].
  apply precedes_filter in H.
  pose proof (precedes_In _ _ _ H) as [Ha Hb].
  apply -> sorted_desc_In in Ha. apply -> sorted_desc_In in Hb.
  apply tabulate_item in Ha, Hb.
  destruct Ha as [Ea [Ca _]], Hb as [Eb [Cb _]].
  apply sorted_desc_stable in H. destruct H as [Hle Hst].
  rewrite <- Ea, <- Eb. split; [assumption|].
  intros Heq. apply Hst in Heq. apply precedes_map in Heq.
  destruct Heq as [a' [b' [<- [<- Heq]]]]. simpl in *.
  apply distinct_order in Heq. now apply index_of_filter in Heq.
Qed.

End Keywords.

(** ** The loop over the segments *)

Lemma scan_segments_snoc segments segment :
  scan_segments (segments ++ [segment]) =
  scan_segment (scan_segments segments) segment.
Proof. unfold scan_segments. now rewrite fold_left_app. Qed.

Lemma scan_all_text segments :
  acc_all_text (scan_segments segments) =
  map text_of (filter has_text segments).
Proof.
  induction segments as [|s segments IH] using rev_ind; [reflexivity|].
  rewrite scan_segments_snoc, filter_app, map_app. simpl.
  unfold scan_segment, has_text.
  destruct (truthy (text_of s)); simpl; rewrite IH; [reflexivity|].
  now rewrite app_nil_r.
Qed.

Lemma scan_speakers segments :
  acc_speakers (scan_segments segments) =
  distinct (map speaker_of (filter has_text segments)).
Proof.
  induction segments as [|s segments IH] using rev_ind; [reflexivity|].
  rewrite scan_segments_snoc, filter_app, map_app. simpl.
  unfold scan_segment, has_text.
  destruct (truthy (text_of s)); simpl.
  - now rewrite distinct_snoc, IH.
  - now rewrite app_nil_r.
Qed.

Lemma extracted_keywords set_iter segments :
  keywords (_extract_summary_data set_iter segments) =
  firstn 15 (_extract_keywords (corpus segments)).
Proof.
  unfold _extract_summary_data, corpus. simpl. now rewrite scan_all_text.
Qed.

Lemma pick_sentences_spec l acc :
  fold_left pick_sentence l acc = acc ++ firstn (3 - length acc) l.
Proof.
  revert acc. induction l as [|s l IH]; intros acc; cbn [fold_left].
  - now rewrite firstn_nil, app_nil_r.
  - rewrite IH. unfold pick_sentence. destruct (length acc <? 3) eqn:E.
    + apply Nat.ltb_lt in E. rewrite length_app. cbn [length].
      replace (3 - length acc) with (S (3 - (length acc + 1))) by lia.
      cbn [firstn]. now rewrite <- app_assoc.
    + apply Nat.ltb_ge in E.
      replace (3 - length acc) with 0 by lia. reflexivity.
Qed.

Lemma extracted_summary_text set_iter segments :
  summary_text (_extract_summary_data set_iter segments) =
  join (lit " ")
    (firstn 3 (firstn 5 (substantial_sentences (corpus segments)))).
Proof.
  unfold _extract_summary_data, corpus, _generate_summary_text. simpl.
  now rewrite scan_all_text, pick_sentences_spec.
Qed.

(** ** Lines and section headers *)

Lemma startswith_app p x : startswith p (p ++ x) = true.
Proof.
  induction p as [|c p IH]; simpl; [reflexivity|].
  destruct (ascii_dec c c); [assumption|congruence].
Qed.

Lemma not_header_by (test : str -> bool) headers x :
  forallb (fun h => negb (test h)) headers = true ->
  test x = true -> mem x headers = false.
Proof.
  intros Hall Hx. apply mem_false_iff. intros Hin.
  rewrite forallb_forall in Hall. apply Hall in Hin.
  rewrite Hx in Hin. discriminate.
Qed.

Lemma prefixed_not_header p x headers :
  forallb (fun h => negb (startswith p h)) headers = true ->
  mem (p ++ x) headers = false.
Proof. intros H. apply (not_header_by _ _ _ H), startswith_app. Qed.

Lemma long_not_header x headers :
  forallb (fun h => negb (20 <? length h)) headers = true ->
  20 < length x -> mem x headers = false.
Proof. intros H Hx. apply (not_header_by _ _ _ H). now apply Nat.ltb_lt. Qed.

Lemma plain_not_header x headers :
  forallb (fun h => negb (forallb plain h)) headers = true ->
  forallb plain x = true -> mem x headers = false.
Proof. intros H Hx. now apply (not_header_by _ _ _ H). Qed.

Lemma header_lines_none headers lines :
  (forall x, In x lines -> mem x headers = false) ->
  header_lines headers lines = [].
Proof.
  intros H. induction lines as [|x lines IH]; [reflexivity|].
  unfold header_lines. simpl. rewrite (H x) by now left.
  apply IH. intros y Hy. apply H. now right.
Qed.

Lemma header_lines_app headers l1 l2 :
  header_lines headers (l1 ++ l2) =
  header_lines headers l1 ++ header_lines headers l2.
Proof. apply filter_app. Qed.

Lemma header_lines_prefixed {A} headers p (f : A -> str) items :
  forallb (fun h => negb (startswith p h)) headers = true ->
  (forall x, f x = p ++ skipn (length p) (f x)) ->
  header_lines headers (map f items) = [].
Proof.
  intros H Hf. apply header_lines_none. intros x Hx.
  apply in_map_iff in Hx. destruct Hx as [y [<- _]].
  rewrite Hf. now apply prefixed_not_header.
Qed.

Lemma headed_skip headers l1 l2 :
  (forall x, In x l1 -> mem x headers = false) ->
  headed headers l2 -> headed headers (l1 ++ l2).
Proof.
  intros H H2. induction l1 as [|x l1 IH]; [assumption|].
  simpl. split.
  - rewrite (H x) by now left. discriminate.
  - apply IH. intros y Hy. apply H. now right.
Qed.

Lemma headed_under headers h under rest :
  under <> [] -> headed headers (under :: rest) ->
  headed headers (h :: under :: rest).
Proof. intros Hu H. split; [intros _; assumption|assumption]. Qed.

(** ** Facts about the extracted data *)

Lemma join_nonempty sep (p : str) rest : p <> [] -> join sep (p :: rest) <> [].
Proof. destruct p; [congruence|]. destruct rest; simpl; discriminate. Qed.

Lemma join_long sep n l :
  l <> [] -> Forall (fun s => n < length s) l -> n < length (join sep l).
Proof.
  destruct l as [|p rest]; [congruence|]. intros _ H.
  inversion H as [|? ? Hp _]; subst.
  destruct rest; simpl; [assumption|]. rewrite length_app. lia.
Qed.

Lemma join_forallb (P : ascii -> bool) sep l :
  forallb P sep = true -> forallb (forallb P) l = true ->
  forallb P (join sep l) = true.
Proof.
  intros Hsep. induction l as [|p rest IH]; [reflexivity|].
  simpl. intros H. apply andb_true_iff in H. destruct H as [Hp Hrest].
  destruct rest as [|q rest]; [assumption|].
  rewrite !forallb_app, Hp, Hsep. simpl. apply IH, Hrest.
Qed.

Lemma findall_runs_words cur s :
  forallb isword cur = true ->
  forallb (forallb isword) (re_findall_runs cur s) = true.
Proof.
  revert cur. induction s as [|c s IH]; intros cur Hcur; simpl.
  - destruct cur; simpl; [reflexivity|].
    rewrite andb_true_r. change (forallb isword (rev (a :: cur)) = true).
    rewrite forallb_forall in *. intros x Hx. apply Hcur. now apply in_rev.
  - destruct (isword c) eqn:E.
    + apply IH. simpl. now rewrite E.
    + destruct cur; simpl; [now apply IH|].
      rewrite IH by reflexivity. rewrite andb_true_r.
      change (forallb isword (rev (a :: cur)) = true).
      rewrite forallb_forall in *. intros x Hx. apply Hcur. now apply in_rev.
Qed.

Lemma keywords_are_words text :
  forallb (forallb plain) (_extract_keywords text) = true.
Proof.
  apply forallb_forall. intros k Hk. apply keyword_counted in Hk.
  destruct Hk as [_ [Hk _]].
  pose proof (findall_runs_words [] (lower text) eq_refl) as H.
  rewrite forallb_forall in H. specialize (H k Hk).
  rewrite forallb_forall in *. intros c Hc. unfold plain.
  now rewrite (H c Hc).
Qed.

Lemma forallb_firstn {A} (P : A -> bool) n l :
  forallb P l = true -> forallb P (firstn n l) = true.
Proof.
  rewrite !forallb_forall. intros H x Hx. apply H.
  rewrite <- (firstn_skipn n l). apply in_or_app. now left.
Qed.

Section ExtractedData.

Variable set_iter : PySet.t -> list str.
Variable segments : list Segment.

Let data := _extract_summary_data set_iter segments.

Lemma extracted_summary_long :
  truthy (summary_text data) = true -> 20 < length (summary_text data).
Proof.
  unfold data. rewrite extracted_summary_text. intros H.
  apply join_long.
  - intros E. rewrite E in H. discriminate.
  - apply Forall_forall. intros s Hs.
    assert (Hin : In s (substantial_sentences (corpus segments))).
    { rewrite <- (firstn_skipn 5 (substantial_sentences _)).
      apply in_or_app. left.
      rewrite <- (firstn_skipn 3 (firstn 5 _)). apply in_or_app. now left. }
    apply filter_In in Hin. destruct Hin as [_ Hin]. now apply Nat.ltb_lt in Hin.
Qed.

Lemma extracted_keywords_line_plain :
  forallb plain (join (lit ", ") (keywords data)) = true.
Proof.
  unfold data. rewrite extracted_keywords.
  apply join_forallb; [reflexivity|].
  apply forallb_firstn, keywords_are_words.
Qed.

Lemma extracted_keywords_line_nonempty :
  nonempty (keywords data) = true -> join (lit ", ") (keywords data) <> [].
Proof.
  destruct (keywords data) as [|k rest] eqn:E; [discriminate|]. intros _.
  apply join_nonempty. intros Hk.
  assert (Hin : In k (keywords data)) by (rewrite E; now left).
  unfold data in Hin. rewrite extracted_keywords in Hin.
  assert (Hin' : In k (_extract_keywords (corpus segments))).
  { rewrite <- (firstn_skipn 15 (_extract_keywords _)).
    apply in_or_app. now left. }
  apply keyword_counted in Hin'. destruct Hin' as [Hc _].
  subst k. discriminate Hc.
Qed.

End ExtractedData.

(** ** The header lines of a rendered summary *)

Lemma block_of_text headers h s :
  mem h headers = true -> mem s headers = false -> mem [] headers = false ->
  header_lines headers [h; s; []] = [h].
Proof. intros H1 H2 H3. unfold header_lines. simpl. now rewrite H1, H2, H3. Qed.

Lemma block_of_items {A} headers h p (f : A -> str) items :
  mem h headers = true -> mem [] headers = false ->
  forallb (fun h => negb (startswith p h)) headers = true ->
  (forall x, f x = p ++ skipn (length p) (f x)) ->
  header_lines headers ([h] ++ map f items ++ [[]]) = [h].
Proof.
  intros H1 H2 H3 H4.
  rewrite !header_lines_app, (header_lines_prefixed _ p f items H3 H4).
  unfold header_lines. simpl. now rewrite H1, H2.
Qed.

Lemma block_of_keywords headers h line :
  mem h headers = true -> mem line headers = false ->
  header_lines headers [h; line] = [h].
Proof. intros H1 H2. unfold header_lines. simpl. now rewrite H1, H2. Qed.

Lemma headed_items {A} headers h p (f : A -> str) items rest :
  p <> [] ->
  forallb (fun h => negb (startswith p h)) headers = true ->
  (forall x, f x = p ++ skipn (length p) (f x)) ->
  items <> [] -> mem [] headers = false ->
  headed headers rest ->
  headed headers (([h] ++ map f items ++ [[]]) ++ rest).
Proof.
  intros Hp Hh Hf Hi He Hrest.
  destruct items as [|x items]; [congruence|].
  assert (Hskip : headed headers ((map f (x :: items) ++ [[]]) ++ rest)).
  { apply headed_skip; [|assumption]. intros y Hy.
    apply in_app_or in Hy. destruct Hy as [Hy|[<-|[]]]; [|assumption].
    apply in_map_iff in Hy. destruct Hy as [z [<- _]].
    rewrite Hf. now apply prefixed_not_header. }
  simpl in *. split; [|assumption].
  intros _. rewrite Hf. destruct p; [congruence|discriminate].
Qed.

Section RenderedSummary.

Variable set_iter : PySet.t -> list str.
Variable clock : Clock.
Variable segments : list Segment.
Variable transcript : Transcript.

Let data := _extract_summary_data set_iter segments.

Local Ltac not_a_header :=
  first [ reflexivity
        | apply prefixed_not_header; reflexivity ].

Lemma text_header_lines :
  header_lines text_headers (text_summary_lines clock data transcript)
  = headers_with_content text_headers data.
Proof.
  unfold text_summary_lines, headers_with_content.
  rewrite !header_lines_app.
  rewrite (header_lines_none text_headers [_; _; _; _; _]).
  2:{ intros x [<-|[<-|[<-|[<-|[<-|[]]]]]]; not_a_header. }
  rewrite (header_lines_none text_headers [lit "PARTICIPANTS:"]).
  2:{ intros x [<-|[]]; not_a_header. }
  rewrite (header_lines_prefixed text_headers (lit "  ")
             (fun speaker => lit "  - " ++ speaker)) by reflexivity.
  rewrite (header_lines_none text_headers [[]]).
  2:{ intros x [<-|[]]; not_a_header. }
  pose proof (extracted_summary_long set_iter segments) as Hlong.
  pose proof (extracted_keywords_line_plain set_iter segments) as Hplain.
  fold data in Hlong, Hplain.
  destruct (truthy (summary_text data)) eqn:Es;
    destruct (nonempty (key_points data)) eqn:Ek;
    destruct (nonempty (action_items data)) eqn:Ea;
    destruct (nonempty (keywords data)) eqn:Ew;
    rewrite ?block_of_text, ?(block_of_items text_headers _ (lit "  ") numbered),
      ?block_of_keywords;
    try reflexivity;
    try (apply long_not_header; [reflexivity|now apply Hlong]);
    try (apply plain_not_header; [reflexivity|exact Hplain]).
Qed.

Lemma markdown_header_lines :
  header_lines markdown_headers (markdown_summary_lines clock data transcript)
  = headers_with_content markdown_headers data.
Proof.
  unfold markdown_summary_lines, headers_with_content.
  rewrite !header_lines_app.
  rewrite (header_lines_none markdown_headers [_; _; _; _; _]).
  2:{ intros x [<-|[<-|[<-|[<-|[<-|[]]]]]]; not_a_header. }
  rewrite (header_lines_none markdown_headers [lit "## Participants"]).
  2:{ intros x [<-|[]]; not_a_header. }
  rewrite (header_lines_prefixed markdown_headers (lit "- ") bullet)
    by reflexivity.
  rewrite (header_lines_none markdown_headers [[]]).
  2:{ intros x [<-|[]]; not_a_header. }
  pose proof (extracted_summary_long set_iter segments) as Hlong.
  pose proof (extracted_keywords_line_plain set_iter segments) as Hplain.
  fold data in Hlong, Hplain.
  destruct (truthy (summary_text data)) eqn:Es;
    destruct (nonempty (key_points data)) eqn:Ek;
    destruct (nonempty (action_items data)) eqn:Ea;
    destruct (nonempty (keywords data)) eqn:Ew;
    rewrite ?block_of_text, ?(block_of_items markdown_headers _ (lit "- ") bullet),
      ?block_of_keywords;
    try reflexivity;
    try (apply long_not_header; [reflexivity|now apply Hlong]);
    try (apply plain_not_header; [reflexivity|exact Hplain]).
Qed.

End RenderedSummary.

Lemma headed_text_block headers h s rest :
  s <> [] -> mem s headers = false -> mem [] headers = false ->
  headed headers rest -> headed headers ([h; s; []] ++ rest).
Proof.
  intros Hs Hm He Hrest. simpl. split; [intros _; assumption|].
  split; [rewrite Hm; discriminate|].
  split; [rewrite He; discriminate|assumption].
Qed.

Lemma headed_last_block headers h line :
  line <> [] -> mem line headers = false -> headed headers [h; line].
Proof.
  intros Hl Hm. simpl. split; [intros _; assumption|].
  split; [rewrite Hm; discriminate|exact I].
Qed.

Lemma enumerate_nonempty {A} start (items : list A) :
  nonempty items = true -> enumerate start items <> [].
Proof. destruct items; simpl; [discriminate|discriminate]. Qed.

Lemma nonempty_true {A} (l : list A) : nonempty l = true -> l <> [].
Proof. destruct l; simpl; [discriminate|discriminate]. Qed.

Section RenderedSummaryHeaded.

Variable set_iter : PySet.t -> list str.
Variable clock : Clock.
Variable segments : list Segment.
Variable transcript : Transcript.

Let data := _extract_summary_data set_iter segments.

Local Ltac not_a_header :=
  first [ reflexivity
        | apply prefixed_not_header; reflexivity ].

Lemma text_lines_headed :
  headed text_headers (text_summary_lines clock data transcript).
Proof.
  unfold text_summary_lines.
  apply headed_skip.
  { intros x [<-|[<-|[<-|[<-|[<-|[]]]]]]; not_a_header. }
  apply headed_skip. { intros x [<-|[]]; not_a_header. }
  apply headed_skip.
  { intros x Hx. apply in_map_iff in Hx. destruct Hx as [y [<- _]].
    not_a_header. }
  apply headed_skip. { intros x [<-|[]]; not_a_header. }
  pose proof (extracted_summary_long set_iter segments) as Hlong.
  pose proof (extracted_keywords_line_plain set_iter segments) as Hplain.
  pose proof (extracted_keywords_line_nonempty set_iter segments) as Hline.
  fold data in Hlong, Hplain, Hline.
  assert (Hw : headed text_headers
                 (if nonempty (keywords data)
                  then [lit "TOPICS/KEYWORDS:"; join (lit ", ") (keywords data)]
                  else [])).
  { destruct (nonempty (keywords data)); [|exact I].
    apply headed_last_block; [now apply Hline|].
    apply plain_not_header; [reflexivity|exact Hplain]. }
  assert (Ha : headed text_headers
                 ((if nonempty (action_items data)
                   then [lit "ACTION ITEMS:"]
                        ++ map numbered (enumerate 1 (action_items data)) ++ [[]]
                   else []) ++
                  (if nonempty (keywords data)
                   then [lit "TOPICS/KEYWORDS:"; join (lit ", ") (keywords data)]
                   else []))).
  { destruct (nonempty (action_items data)) eqn:E; [|exact Hw].
    apply (headed_items text_headers _ (lit "  ") numbered);
      try reflexivity; try discriminate; try assumption.
    now apply enumerate_nonempty. }
  assert (Hk : headed text_headers
                 ((if nonempty (key_points data)
                   then [lit "KEY POINTS:"]
                        ++ map numbered (enumerate 1 (key_points data)) ++ [[]]
                   else []) ++
                  (if nonempty (action_items data)
                   then [lit "ACTION ITEMS:"]
                        ++ map numbered (enumerate 1 (action_items data)) ++ [[]]
                   else []) ++
                  (if nonempty (keywords data)
                   then [lit "TOPICS/KEYWORDS:"; join (lit ", ") (keywords data)]
                   else []))).
  { destruct (nonempty (key_points data)) eqn:E; [|exact Ha].
    apply (headed_items text_headers _ (lit "  ") numbered);
      try reflexivity; try discriminate; try assumption.
    now apply enumerate_nonempty. }
  destruct (truthy (summary_text data)) eqn:E; [|exact Hk].
  apply headed_text_block; try reflexivity; try assumption.
  - now apply truthy_true.
  - apply long_not_header; [reflexivity|now apply Hlong].
Qed.

Lemma markdown_lines_headed :
  headed markdown_headers (markdown_summary_lines clock data transcript).
Proof.
  unfold markdown_summary_lines.
  apply headed_skip.
  { intros x [<-|[<-|[<-|[<-|[<-|[]]]]]]; not_a_header. }
  apply headed_skip. { intros x [<-|[]]; not_a_header. }
  apply headed_skip.
  { intros x Hx. apply in_map_iff in Hx. destruct Hx as [y [<- _]].
    not_a_header. }
  apply headed_skip. { intros x [<-|[]]; not_a_header. }
  pose proof (extracted_summary_long set_iter segments) as Hlong.
  pose proof (extracted_keywords_line_plain set_iter segments) as Hplain.
  pose proof (extracted_keywords_line_nonempty set_iter segments) as Hline.
  fold data in Hlong, Hplain, Hline.
  assert (Hw : headed markdown_headers
                 (if nonempty (keywords data)
                  then [lit "## Topics/Keywords"; join (lit ", ") (keywords data)]
                  else [])).
  { destruct (nonempty (keywords data)); [|exact I].
    apply headed_last_block; [now apply Hline|].
    apply plain_not_header; [reflexivity|exact Hplain]. }
  assert (Ha : headed markdown_headers
                 ((if nonempty (action_items data)
                   then [lit "## Action Items"]
                        ++ map bullet (action_items data) ++ [[]]
                   else []) ++
                  (if nonempty (keywords data)
                   then [lit "## Topics/Keywords"; join (lit ", ") (keywords data)]
                   else []))).
  { destruct (nonempty (action_items data)) eqn:E; [|exact Hw].
    apply (headed_items markdown_headers _ (lit "- ") bullet);
      try reflexivity; try discriminate; try assumption.
    now apply nonempty_true. }
  assert (Hk : headed markdown_headers
                 ((if nonempty (key_points data)
                   then [lit "## Key Points"]
                        ++ map bullet (key_points data) ++ [[]]
                   else []) ++
                  (if nonempty (action_items data)
                   then [lit "## Action Items"]
                        ++ map bullet (action_items data) ++ [[]]
                   else []) ++
                  (if nonempty (keywords data)
                   then [lit "## Topics/Keywords"; join (lit ", ") (keywords data)]
                   else []))).
  { destruct (nonempty (key_points data)) eqn:E; [|exact Ha].
    apply (headed_items markdown_headers _ (lit "- ") bullet);
      try reflexivity; try discriminate; try assumption.
    now apply nonempty_true. }
  destruct (truthy (summary_text data)) eqn:E; [|exact Hk].
  apply headed_text_block; try reflexivity; try assumption.
  - now apply truthy_true.
  - apply long_not_header; [reflexivity|now apply Hlong].
Qed.

End RenderedSummaryHeaded.

(** ** Trimming, searching and splitting *)

Lemma lstrip_head s :
  lstrip s = [] \/ exists c t, lstrip s = c :: t /\ isspace c = false.
Proof.
  induction s as [|c s IH]; simpl; [now left|].
  destruct (isspace c) eqn:E; [assumption|]. right. now exists c, s.
Qed.

Lemma lstrip_nonspace c t : isspace c = false -> lstrip (c :: t) = c :: t.
Proof. intros E. simpl. now rewrite E. Qed.

Lemma lstrip_idem s : lstrip (lstrip s) = lstrip s.
Proof.
  destruct (lstrip_head s) as [E|[c [t [E Hc]]]]; rewrite E; [reflexivity|].
  now apply lstrip_nonspace.
Qed.

Lemma lstrip_app a b : lstrip a <> [] -> lstrip (a ++ b) = lstrip a ++ b.
Proof.
  induction a as [|c a IH]; simpl; [congruence|].
  destruct (isspace c); [assumption|reflexivity].
Qed.

Lemma lstrip_In c s : In c (lstrip s) -> In c s.
Proof.
  induction s as [|d s IH]; simpl; [tauto|].
  destruct (isspace d); simpl; auto.
Qed.

Lemma rstrip_idem s : rstrip (rstrip s) = rstrip s.
Proof. unfold rstrip. now rewrite rev_involutive, lstrip_idem. Qed.

Lemma rstrip_app a b : rstrip b <> [] -> rstrip (a ++ b) = a ++ rstrip b.
Proof.
  unfold rstrip. intros H. rewrite rev_app_distr, lstrip_app.
  - now rewrite rev_app_distr, rev_involutive.
  - intros E. rewrite E in H. now apply H.
Qed.

Lemma rstrip_cons c t : isspace c = false -> rstrip (c :: t) = c :: rstrip t.
Proof.
  intros Hc. destruct (rstrip t) eqn:E.
  - unfold rstrip in *. simpl.
    assert (Hr : lstrip (rev t) = []).
    { rewrite <- (rev_involutive (lstrip (rev t))), E. reflexivity. }
    assert (H : forall u, lstrip u = [] -> lstrip (u ++ [c]) = [c]).
    { induction u as [|d u IH]; simpl; [now rewrite Hc|].
      destruct (isspace d); [assumption|discriminate]. }
    now rewrite (H _ Hr).
  - rewrite <- E. apply (rstrip_app [c]). rewrite E. discriminate.
Qed.

Lemma rstrip_In c s : In c (rstrip s) -> In c s.
Proof.
  unfold rstrip. intros H. apply in_rev in H. apply lstrip_In in H.
  now apply in_rev.
Qed.

Lemma strip_In c s : In c (strip s) -> In c s.
Proof. intros H. now apply lstrip_In, rstrip_In. Qed.

(** A trimmed string is empty or begins with a character that is not
    white space. *)
Lemma strip_head s :
  strip s = [] \/ exists c t, strip s = c :: t /\ isspace c = false.
Proof.
  unfold strip. destruct (lstrip_head s) as [E|[c [t [E Hc]]]]; rewrite E.
  - now left.
  - right. exists c, (rstrip t). split; [now apply rstrip_cons|assumption].
Qed.

Lemma strip_idem s : strip (strip s) = strip s.
Proof.
  destruct (strip_head s) as [E|[c [t [E Hc]]]]; rewrite E; [reflexivity|].
  unfold strip. rewrite lstrip_nonspace by assumption.
  rewrite <- E. unfold strip. apply rstrip_idem.
Qed.

Lemma rstrip_strip s : rstrip (strip s) = strip s.
Proof. unfold strip. apply rstrip_idem. Qed.

Lemma strip_space_before s : strip (lit " " ++ s) = strip s.
Proof. reflexivity. Qed.

(** A line that opens with a bracket and closes with trimmed text is
    already trimmed. *)
Lemma strip_bracketed middle t :
  strip t <> [] ->
  strip (lit "[" ++ middle ++ strip t) = lit "[" ++ middle ++ strip t.
Proof.
  intros H. unfold strip at 1. simpl.
  rewrite rstrip_cons by reflexivity. f_equal.
  rewrite rstrip_app; rewrite rstrip_strip; [reflexivity|assumption].
Qed.

Lemma startswith_cons a p b s :
  startswith (a :: p) (b :: s) = if ascii_dec a b then startswith p s else false.
Proof. reflexivity. Qed.

Lemma startswith_true p s : startswith p s = true -> exists t, s = p ++ t.
Proof.
  revert s. induction p as [|a p IH]; intros s; simpl.
  - intros _. now exists s.
  - destruct s as [|b s]; [discriminate|].
    destruct (ascii_dec a b) as [<-|]; [|discriminate].
    intros H. destruct (IH _ H) as [t ->]. now exists t.
Qed.

Lemma index_from_In c s : index_from [c] s <> None -> In c s.
Proof.
  induction s as [|d s IH]; simpl; [congruence|].
  destruct (ascii_dec c d) as [<-|Hne]; [now left|].
  intros H. right. apply IH. destruct (index_from [c] s); [discriminate|].
  simpl in H. congruence.
Qed.

Lemma contains_char_In c s : contains [c] s = true -> In c s.
Proof.
  unfold contains. intros H. apply index_from_In.
  destruct (index_from [c] s); [discriminate|discriminate].
Qed.

(** The first ["]:"] of [sp ++ "]:" ++ rest] is the one after [sp] when
    [sp] holds none. *)
Lemma index_from_closing sp rest :
  contains (lit "]:") sp = false ->
  index_from (lit "]:") (sp ++ lit "]:" ++ rest) = Some (length sp).
Proof.
  unfold contains. induction sp as [|c sp IH]; [reflexivity|].
  intros H. cbn [index_from] in H.
  destruct (startswith (lit "]:") (c :: sp)) eqn:E; [discriminate|].
  destruct (index_from (lit "]:") sp) eqn:E'; [discriminate|].
  cbn [index_from app length].
  assert (E2 : startswith (lit "]:") (c :: sp ++ lit "]:" ++ rest) = false).
  { change (lit "]:") with ["]"%char; ":"%char] in *.
    rewrite startswith_cons in *.
    destruct (ascii_dec "]" c); [|reflexivity].
    destruct sp as [|d sp]; cbn [app]; rewrite startswith_cons in *.
    - destruct (ascii_dec ":" "]"); [discriminate|reflexivity].
    - destruct (ascii_dec ":" d); [discriminate|reflexivity]. }
  change ((c :: sp) ++ lit "]:" ++ rest) with (c :: sp ++ lit "]:" ++ rest).
  rewrite E2, IH by reflexivity. reflexivity.
Qed.

Lemma split_char_line sep line rest :
  ~ In sep line ->
  split_char sep (line ++ sep :: rest) = line :: split_char sep rest.
Proof.
  induction line as [|c line IH]; simpl.
  - intros _. destruct (ascii_dec sep sep); [reflexivity|congruence].
  - intros H. destruct (ascii_dec c sep) as [->|Hne]; [tauto|].
    rewrite IH by tauto. reflexivity.
Qed.

(** ** Parsing and writing transcript lines *)

Lemma index_from_line sp rest :
  contains (lit "]:") sp = false ->
  index_from (lit "]:") (lit "[" ++ sp ++ lit "]:" ++ rest)
  = Some (S (length sp)).
Proof.
  intros H.
  change (lit "[" ++ sp ++ lit "]:" ++ rest)
    with ("["%char :: (sp ++ lit "]:" ++ rest)).
  cbn [index_from]. rewrite (index_from_closing sp rest H).
  change (lit "]:") with ["]"%char; ":"%char]. rewrite startswith_cons.
  destruct (ascii_dec "]" "["); [discriminate|reflexivity].
Qed.

Lemma slice_speaker sp rest :
  slice (lit "[" ++ sp ++ lit "]:" ++ rest) 1 (Z.of_nat (S (length sp))) = sp.
Proof.
  unfold slice, clamp.
  replace (Z.of_nat (S (length sp)) <? 0)%Z with false
    by (symmetry; apply Z.ltb_ge; lia).
  change (1 <? 0)%Z with false. cbv iota. rewrite Nat2Z.id.
  change (lit "[" ++ sp ++ lit "]:" ++ rest)
    with ("["%char :: (sp ++ lit "]:" ++ rest)).
  cbn [length]. rewrite length_app.
  replace (Nat.min (Z.to_nat 1) (S (length sp + length (lit "]:" ++ rest))))
    with 1 by (change (Z.to_nat 1) with 1; lia).
  replace (Nat.min (S (length sp)) (S (length sp + length (lit "]:" ++ rest))))
    with (S (length sp)) by lia.
  cbn [skipn]. replace (S (length sp) - 1) with (length sp + 0) by lia.
  now rewrite firstn_app_2, app_nil_r.
Qed.

Lemma slice_text sp rest :
  slice_from (lit "[" ++ sp ++ lit "]:" ++ rest)
    (Z.of_nat (S (length sp)) + 2) = rest.
Proof.
  unfold slice_from, clamp.
  replace (Z.of_nat (S (length sp)) + 2 <? 0)%Z with false
    by (symmetry; apply Z.ltb_ge; lia).
  replace (Z.to_nat (Z.of_nat (S (length sp)) + 2)) with (S (length sp + 2))
    by lia.
  change (lit "[" ++ sp ++ lit "]:" ++ rest)
    with ("["%char :: (sp ++ lit "]:" ++ rest)).
  cbn [length]. rewrite !length_app. cbn [lit list_ascii_of_string length].
  replace (Nat.min (S (length sp + 2)) (S (length sp + (2 + length rest))))
    with (S (length sp + 2)) by lia.
  cbn [skipn]. rewrite app_assoc.
  replace (length sp + 2) with (length (sp ++ ["]"%char; ":"%char]))
    by (rewrite length_app; reflexivity).
  now rewrite skipn_app, skipn_all, Nat.sub_diag.
Qed.

(** A line that, once trimmed, opens with a bracket and holds a ["]:"]. *)
Lemma parse_line_shape segments line sp rest :
  strip line = lit "[" ++ sp ++ lit "]:" ++ rest ->
  contains (lit "]:") sp = false ->
  CLIInterface.parse_line segments line
  = segments ++ [parsed (strip sp) (strip rest)].
Proof.
  intros Hline Hsp. unfold CLIInterface.parse_line. rewrite Hline.
  unfold contains at 2, find. rewrite (index_from_line sp rest Hsp).
  replace (truthy (lit "[" ++ sp ++ lit "]:" ++ rest)) with true by reflexivity.
  replace (contains (lit "[") (lit "[" ++ sp ++ lit "]:" ++ rest)) with true.
  2:{ unfold contains.
      change (lit "[" ++ sp ++ lit "]:" ++ rest)
        with ("["%char :: (sp ++ lit "]:" ++ rest)).
      cbn [index_from]. change (lit "[") with ["["%char].
      rewrite startswith_cons.
      destruct (ascii_dec "[" "["); [reflexivity|congruence]. }
  cbn [andb]. now rewrite slice_speaker, slice_text.
Qed.

Lemma startswith_firstn p n s :
  startswith p (firstn n s) = true -> startswith p s = true.
Proof.
  revert n s. induction p as [|a p IH]; intros n s; [reflexivity|].
  destruct n as [|n]; [discriminate|]. destruct s as [|b s]; [discriminate|].
  cbn [firstn]. rewrite !startswith_cons.
  destruct (ascii_dec a b); [apply IH|discriminate].
Qed.

(** Where [index_from] finds [sub], [sub] stands, and not before. *)
Lemma index_from_first a sub s i :
  index_from (a :: sub) s = Some i ->
  s = firstn i s ++ (a :: sub) ++ skipn (i + length (a :: sub)) s
  /\ contains (a :: sub) (firstn i s) = false.
Proof.
  revert i. induction s as [|c s IH]; intros i; [discriminate|].
  cbn [index_from]. destruct (startswith (a :: sub) (c :: s)) eqn:E.
  - intros H. injection H as <-. split; [|reflexivity].
    apply startswith_true in E. destruct E as [t E]. rewrite E at 1.
    cbn [firstn app]. f_equal. rewrite E.
    change (0 + length (a :: sub)) with (length (a :: sub)).
    now rewrite skipn_app, skipn_all, Nat.sub_diag.
  - destruct (index_from (a :: sub) s) as [j|] eqn:Ej; [|discriminate].
    intros H. injection H as <-. destruct (IH j eq_refl) as [Hs Hc].
    split.
    + cbn [firstn app plus skipn]. f_equal. exact Hs.
    + unfold contains in *. cbn [firstn index_from].
      destruct (startswith (a :: sub) (c :: firstn j s)) eqn:E'.
      * apply (startswith_firstn _ (S j) (c :: s)) in E'. congruence.
      * destruct (index_from (a :: sub) (firstn j s)); [discriminate|reflexivity].
Qed.

(** Every trimmed line that opens with a bracket and holds a ["]:"] splits
    at its first ["]:"]. *)
Lemma bracketed_line_split line :
  startswith (lit "[") line = true -> contains (lit "]:") line = true ->
  exists sp rest,
    line = lit "[" ++ sp ++ lit "]:" ++ rest
    /\ contains (lit "]:") sp = false.
Proof.
  intros Hopen Hhas. apply startswith_true in Hopen.
  destruct Hopen as [body ->]. unfold contains in Hhas.
  change (lit "[" ++ body) with ("["%char :: body) in *.
  cbn [index_from] in Hhas.
  change (lit "]:") with ["]"%char; ":"%char] in *.
  rewrite startswith_cons in Hhas.
  destruct (ascii_dec "]" "["); [discriminate|].
  destruct (index_from ["]"%char; ":"%char] body) as [i|] eqn:E;
    [|discriminate].
  apply index_from_first in E. destruct E as [Hbody Hc].
  exists (firstn i body), (skipn (i + 2) body). split; [|assumption].
  change (lit "[") with ["["%char]. cbn [app]. f_equal. exact Hbody.
Qed.

(** A line that, once trimmed, is empty or lacks a bracket or a ["]:"]. *)
Lemma parse_line_ignored segments line :
  strip line = [] \/ contains (lit "[") (strip line) = false
  \/ contains (lit "]:") (strip line) = false ->
  CLIInterface.parse_line segments line = segments.
Proof.
  intros H. unfold CLIInterface.parse_line.
  destruct H as [H|[H|H]]; rewrite H; [reflexivity| |].
  - now rewrite andb_false_r.
  - now rewrite andb_false_r.
Qed.

Lemma parse_line_acc segments line :
  CLIInterface.parse_line segments line
  = segments ++ CLIInterface.parse_line [] line.
Proof.
  unfold CLIInterface.parse_line.
  destruct (truthy (strip line) && contains (lit "[") (strip line)
            && contains (lit "]:") (strip line));
    [reflexivity|now rewrite app_nil_r].
Qed.

Lemma parse_lines_flat lines segments :
  fold_left CLIInterface.parse_line lines segments
  = segments ++ flat_map (CLIInterface.parse_line []) lines.
Proof.
  revert segments. induction lines as [|line lines IH]; intros segments; simpl.
  - now rewrite app_nil_r.
  - rewrite IH, (parse_line_acc segments line). now rewrite app_assoc.
Qed.

Lemma parse_line_placeholders line :
  Forall (fun s => seg_start s = Some (NFloat (lit "0.0"))
                   /\ seg_end s = Some (NFloat (lit "0.0")))
    (CLIInterface.parse_line [] line).
Proof.
  unfold CLIInterface.parse_line.
  destruct (truthy (strip line) && contains (lit "[") (strip line)
            && contains (lit "]:") (strip line)); repeat constructor.
Qed.

Lemma write_segments_flat segments file :
  fold_left TabletopNotetakerApp.write_segment segments file
  = file ++ flat_map written_line (filter has_text segments).
Proof.
  revert file. induction segments as [|s segments IH]; intros file; simpl.
  - now rewrite app_nil_r.
  - rewrite IH. unfold TabletopNotetakerApp.write_segment, has_text.
    destruct (truthy (text_of s)); [|reflexivity].
    cbn [filter flat_map]. unfold written_line.
    now rewrite <- (app_assoc file).
Qed.

(** ** A written transcript read back *)

Lemma saved_text_shape clock transcript :
  TabletopNotetakerApp._save_as_text clock transcript
  = lit "Meeting Transcript" ++ newline ::
    (lit "Date: " ++ now_pretty clock) ++ newline ::
    [] ++ newline ::
    flat_map written_line (filter has_text (get (tr_segments transcript) [])).
Proof.
  unfold TabletopNotetakerApp._save_as_text. rewrite write_segments_flat.
  rewrite <- !app_assoc. reflexivity.
Qed.

Lemma split_written_lines kept :
  Forall reads_back kept ->
  split_char newline (flat_map written_line kept) = map line_of kept ++ [[]].
Proof.
  induction kept as [|s kept IH]; intros H; [reflexivity|].
  inversion H as [|? ? Hs Hkept]; subst. destruct Hs as (_ & _ & Hsp & Htx).
  cbn [flat_map map]. unfold written_line at 1.
  replace ((lit "[" ++ speaker_of s ++ lit "]: " ++ text_of s ++ [newline])
           ++ flat_map written_line kept)
    with (line_of s ++ newline :: flat_map written_line kept).
  2:{ unfold line_of. rewrite <- !app_assoc. reflexivity. }
  rewrite split_char_line; [now rewrite IH|].
  unfold line_of. rewrite !in_app_iff.
  intros [Hin|[Hin|[Hin|Hin]]]; try tauto.
  - destruct Hin as [Hin|[]]. discriminate Hin.
  - repeat (destruct Hin as [Hin|Hin]; [discriminate Hin|]). destruct Hin.
Qed.

Lemma parse_written_line s :
  has_text s = true -> reads_back s ->
  CLIInterface.parse_line [] (line_of s)
  = [parsed (speaker_of s) (text_of s)].
Proof.
  intros Ht (Hstrip & Hsp & _ & _).
  rewrite (parse_line_shape [] (line_of s) (speaker_of s)
             (lit " " ++ text_of s)).
  - rewrite Hstrip, strip_space_before. unfold text_of.
    now rewrite strip_idem.
  - unfold line_of, text_of.
    replace (lit "[" ++ speaker_of s ++ lit "]: " ++ strip (get (seg_text s) []))
      with (lit "[" ++ (speaker_of s ++ lit "]: ") ++ strip (get (seg_text s) []))
      by (now rewrite <- !app_assoc).
    rewrite strip_bracketed.
    + now rewrite <- !app_assoc.
    + apply truthy_true. exact Ht.
  - assumption.
Qed.

Lemma parse_written_lines kept :
  Forall (fun s => has_text s = true) kept -> Forall reads_back kept ->
  flat_map (CLIInterface.parse_line []) (map line_of kept)
  = map (fun s => parsed (speaker_of s) (text_of s)) kept.
Proof.
  induction kept as [|s kept IH]; intros Ht Hr; [reflexivity|].
  inversion Ht; inversion Hr; subst. cbn [map flat_map].
  rewrite parse_written_line, IH by assumption. reflexivity.
Qed.

Lemma parse_date_line now :
  date_like now = true ->
  CLIInterface.parse_line [] (lit "Date: " ++ now) = [].
Proof.
  intros Hd. apply parse_line_ignored. right. left.
  destruct (contains (lit "[") (strip (lit "Date: " ++ now))) eqn:E;
    [|reflexivity].
  apply (contains_char_In "["%char) in E. apply strip_In in E.
  apply in_app_or in E. destruct E as [E|E].
  - repeat (destruct E as [E|E]; [discriminate E|]). destruct E.
  - unfold date_like in Hd. rewrite forallb_forall in Hd.
    apply Hd in E. discriminate E.
Qed.

Lemma not_In_by_test c (s : str) :
  forallb (fun d => negb (Ascii.eqb c d)) s = true -> ~ In c s.
Proof.
  intros H Hin. rewrite forallb_forall in H. apply H in Hin.
  rewrite Ascii.eqb_refl in Hin. discriminate.
Qed.

Lemma date_like_one_line now : date_like now = true -> ~ In newline now.
Proof.
  intros Hd Hin. unfold date_like in Hd. rewrite forallb_forall in Hd.
  apply Hd in Hin. discriminate Hin.
Qed.

Lemma read_back_segments clock transcript :
  date_like (now_pretty clock) = true ->
  Forall reads_back (filter has_text (get (tr_segments transcript) [])) ->
  tr_segments
    (CLIInterface._parse_transcript_file
       (TabletopNotetakerApp._save_as_text clock transcript))
  = Some (map (fun s => parsed (speaker_of s) (text_of s))
            (filter has_text (get (tr_segments transcript) []))).
Proof.
  intros Hd Hr. unfold CLIInterface._parse_transcript_file. cbn [tr_segments].
  f_equal. rewrite saved_text_shape.
  rewrite split_char_line by (apply not_In_by_test; reflexivity).
  rewrite split_char_line.
  2:{ intros Hin. apply in_app_or in Hin. destruct Hin as [Hin|Hin].
      - revert Hin. apply not_In_by_test. reflexivity.
      - revert Hin. now apply date_like_one_line. }
  rewrite split_char_line by (intros []).
  rewrite split_written_lines by assumption.
  rewrite parse_lines_flat. cbn [app flat_map].
  rewrite flat_map_app, parse_written_lines; [| |assumption].
  - rewrite parse_date_line by assumption.
    replace (CLIInterface.parse_line [] (lit "Meeting Transcript"))
      with (@nil Segment) by reflexivity.
    replace (CLIInterface.parse_line [] []) with (@nil Segment) by reflexivity.
    cbn [app flat_map]. now rewrite app_nil_r.
  - apply Forall_forall. intros s Hs. now apply filter_In in Hs.
Qed.

(** ** The recording service on its own *)

(** Starting while a recording runs changes nothing in the service. *)
Lemma service_start_while_recording host path st :
  RecordingService.is_recording st = true ->
  RecordingService.start_recording host path st = (st, Returned tt).
Proof. intros H. unfold RecordingService.start_recording. now rewrite H. Qed.

(** The service hands out a path only after writing the captured chunks
    to it: it was recording, the path is the one it was given, and at
    least one chunk was captured. *)
Lemma service_stop_returns_written_path host st st' path :
  RecordingService.stop_recording host st = (st', Returned (Some path)) ->
  RecordingService.is_recording st = true
  /\ RecordingService.output_path st = Some path
  /\ path <> []
  /\ RecordingService.frames st <> []
  /\ RecordingService.written st'
     = RecordingService.written st ++ [(path, RecordingService.frames st)].
Proof.
  unfold RecordingService.stop_recording, RecordingService._save_recording.
  destruct (RecordingService.is_recording st); cbn [negb]; [|discriminate].
  cbn [RecordingService.stream RecordingService.audio
       RecordingService.output_path RecordingService.frames].
  destruct ((RecordingService.stream st || RecordingService.audio st)
            && negb (teardown_ok host)); [discriminate|].
  destruct (RecordingService.output_path st) as [p|]; [|discriminate].
  destruct (truthy p) eqn:Ep; cbn [andb]; [|discriminate].
  destruct (nonempty (RecordingService.frames st)) eqn:Ef; [|discriminate].
  destruct (save_ok host); [|discriminate].
  intros H. injection H as <- <-. cbn [RecordingService.written].
  split; [reflexivity|]. split; [reflexivity|].
  split; [now apply truthy_true|]. split; [now apply nonempty_true|reflexivity].
Qed.

(** The service returns none when nothing was recording or nothing was
    captured. *)
Lemma service_stop_none host st :
  RecordingService.is_recording st = false
  \/ RecordingService.frames st = [] ->
  forall path,
    snd (RecordingService.stop_recording host st) <> Returned (Some path).
Proof.
  intros H path E.
  destruct (RecordingService.stop_recording host st) as [st' r] eqn:Es.
  cbn [snd] in E. subst r.
  apply service_stop_returns_written_path in Es.
  destruct Es as (Hr & _ & _ & Hf & _).
  destruct H as [H|H]; congruence.
Qed.

(** ** The accumulators of the extraction loop, in closed form *)

Lemma add_key_points_spec pieces key_points :
  fold_left add_key_point pieces key_points
  = key_points ++ filter (fun s => 20 <? length s) (map strip pieces).
Proof.
  revert key_points. induction pieces as [|p pieces IH]; intros kp; simpl.
  - now rewrite app_nil_r.
  - rewrite IH. unfold add_key_point.
    destruct (20 <? length (strip p)); [now rewrite <- app_assoc|reflexivity].
Qed.

Lemma scan_key_points segments :
  acc_key_points (scan_segments segments)
  = flat_map (fun s => substantial_sentences (text_of s))
      (filter has_text segments).
Proof.
  induction segments as [|s segments IH] using rev_ind; [reflexivity|].
  rewrite scan_segments_snoc, filter_app, flat_map_app. simpl.
  unfold scan_segment, has_text.
  destruct (truthy (text_of s)); simpl.
  - rewrite add_key_points_spec, IH, app_nil_r. reflexivity.
  - now rewrite app_nil_r.
Qed.

Lemma scan_action_items segments :
  acc_action_items (scan_segments segments)
  = map action_item (filter marked (filter has_text segments)).
Proof.
  induction segments as [|s segments IH] using rev_ind; [reflexivity|].
  rewrite scan_segments_snoc, filter_app. cbn [filter].
  unfold scan_segment.
  change (truthy (text_of s)) with (has_text s).
  change (existsb (fun word => contains word (lower (text_of s)))
            action_markers) with (marked s).
  destruct (has_text s).
  - cbn [acc_action_items]. rewrite filter_app. cbn [filter].
    destruct (marked s); rewrite map_app, IH; [reflexivity|].
    cbn [map]. now rewrite app_nil_r.
  - now rewrite app_nil_r.
Qed.

Lemma scan_plain_segment acc s :
  has_text s = true ->
  scan_segment acc s = scan_segment acc (plain_segment (trimmed_pair s)).
Proof.
  intros _. unfold scan_segment.
  assert (Et : text_of (plain_segment (trimmed_pair s)) = text_of s).
  { unfold plain_segment, trimmed_pair, text_of at 1. simpl.
    unfold text_of. apply strip_idem. }
  assert (Es : speaker_of (plain_segment (trimmed_pair s)) = speaker_of s)
    by reflexivity.
  now rewrite Et, Es.
Qed.

Lemma scan_kept_pairs segments :
  scan_segments segments
  = scan_segments
      (map plain_segment (map trimmed_pair (filter has_text segments))).
Proof.
  induction segments as [|s segments IH] using rev_ind; [reflexivity|].
  rewrite scan_segments_snoc, filter_app, !map_app. simpl.
  destruct (has_text s) eqn:E; simpl.
  - rewrite scan_segments_snoc, <- IH. now apply scan_plain_segment.
  - rewrite app_nil_r, <- IH. unfold scan_segment.
    unfold has_text in E. now rewrite E.
Qed.

(** ** Pieces of a split and tokens of a search *)

Lemma re_split_runs_pieces cls cur in_run s :
  forallb (fun c => negb (cls c)) cur = true ->
  forallb (forallb (fun c => negb (cls c))) (re_split_runs cls cur in_run s)
  = true.
Proof.
  revert cur in_run. induction s as [|c s IH]; intros cur in_run Hcur; simpl.
  - rewrite andb_true_r. rewrite forallb_forall in *.
    intros x Hx. apply Hcur. now apply in_rev.
  - destruct (cls c) eqn:E.
    + destruct in_run; [now apply IH|]. simpl.
      rewrite IH by reflexivity. rewrite andb_true_r.
      rewrite forallb_forall in *. intros x Hx. apply Hcur. now apply in_rev.
    + apply IH. simpl. now rewrite E.
Qed.

Lemma forallb_strip (P : ascii -> bool) s :
  forallb P s = true -> forallb P (strip s) = true.
Proof.
  rewrite !forallb_forall. intros H c Hc. apply H. now apply strip_In.
Qed.

Lemma substantial_sentence_shape text k :
  In k (substantial_sentences text) ->
  strip k = k /\ 20 < length k /\ no_terminator k = true.
Proof.
  unfold substantial_sentences. intros H. apply filter_In in H.
  destruct H as [H Hlen]. apply in_map_iff in H. destruct H as [piece [<- H]].
  split; [apply strip_idem|]. split; [now apply Nat.ltb_lt|].
  apply forallb_strip.
  pose proof (re_split_runs_pieces is_terminator [] false text eq_refl) as Hp.
  rewrite forallb_forall in Hp. now apply Hp.
Qed.

Lemma findall_runs_chars cur s k c :
  In k (re_findall_runs cur s) -> In c k -> In c cur \/ In c s.
Proof.
  revert cur. induction s as [|d s IH]; intros cur; simpl.
  - destruct cur as [|a cur]; [intros []|].
    intros [<-|[]] Hc. left. now apply in_rev.
  - destruct (isword d).
    + intros Hk Hc. destruct (IH _ Hk Hc) as [[<-|H]|H]; auto.
    + destruct cur as [|a cur].
      * intros Hk Hc. destruct (IH _ Hk Hc) as [[]|H]; auto.
      * intros [<-|Hk] Hc.
        -- left. now apply in_rev.
        -- destruct (IH _ Hk Hc) as [[]|H]; auto.
Qed.

Lemma lower_char_idem c : lower_char (lower_char c) = lower_char c.
Proof. destruct c as [[] [] [] [] [] [] [] []]; vm_compute; reflexivity. Qed.

Lemma token_lower text k : In k (tokens text) -> lower k = k.
Proof.
  intros Hk. unfold lower. rewrite <- (map_id k) at 2.
  apply map_ext_in. intros c Hc.
  destruct (findall_runs_chars [] (lower text) k c Hk Hc) as [[]|H].
  unfold lower in H. apply in_map_iff in H. destruct H as [d [<- _]].
  apply lower_char_idem.
Qed.

Lemma NoDup_map_fst_filter {A B} (p : A * B -> bool) l :
  NoDup (map fst l) -> NoDup (map fst (filter p l)).
Proof.
  induction l as [|x l IH]; simpl; [auto|].
  intros H. inversion H as [|? ? Hx Hl]; subst.
  destruct (p x); simpl; [|auto]. constructor; [|auto].
  intros Hin. apply Hx. apply in_map_iff in Hin.
  destruct Hin as [y [E Hy]]. apply filter_In in Hy.
  apply in_map_iff. exists y. tauto.
Qed.

Lemma NoDup_firstn_list {A} n (l : list A) : NoDup l -> NoDup (firstn n l).
Proof.
  revert n. induction l as [|x l IH]; intros [|n] H; simpl; try constructor.
  - inversion H as [|? ? Hx Hl]; subst. intros Hin. apply Hx.
    rewrite <- (firstn_skipn n l). apply in_or_app. now left.
  - inversion H; subst. now apply IH.
Qed.

Lemma extract_keywords_NoDup text : NoDup (_extract_keywords text).
Proof.
  rewrite extract_keywords_unfold. apply NoDup_map_fst_filter.
  apply (Permutation_NoDup
           (Permutation_map fst (Permutation_sym (sorted_desc_perm _)))).
  unfold tabulate. rewrite map_map. simpl. rewrite map_id.
  apply distinct_NoDup.
Qed.

(** ** The Markdown transcript *)

Lemma str_eqb_true a b : str_eqb a b = true <-> a = b.
Proof. unfold str_eqb. destruct (str_eq_dec a b); split; congruence. Qed.

Lemma str_eqb_false a b : str_eqb a b = false <-> a <> b.
Proof. unfold str_eqb. destruct (str_eq_dec a b); split; congruence. Qed.

Lemma write_markdown_blank state s :
  has_text s = false ->
  TabletopNotetakerApp.write_markdown_segment state s = state.
Proof.
  intros H. unfold TabletopNotetakerApp.write_markdown_segment.
  unfold has_text in H. now rewrite H.
Qed.

Lemma write_markdown_kept segments state :
  fold_left TabletopNotetakerApp.write_markdown_segment segments state
  = fold_left TabletopNotetakerApp.write_markdown_segment
      (filter has_text segments) state.
Proof.
  revert state. induction segments as [|s segments IH]; intros state;
    [reflexivity|].
  simpl. destruct (has_text s) eqn:E; simpl; [apply IH|].
  rewrite write_markdown_blank by assumption. apply IH.
Qed.

(** The text written for segments that all have text, after [current]. *)
Lemma write_markdown_runs kept :
  Forall (fun s => has_text s = true) kept ->
  forall file current,
    fst (fold_left TabletopNotetakerApp.write_markdown_segment kept
           (file, current))
    = file ++
      match runs kept with
      | (speaker, group) :: more =>
          if match current with
             | Some c => str_eqb speaker c
             | None => false
             end
          then flat_map (fun s => text_of s ++ [newline]) group
               ++ flat_map markdown_block more
          else flat_map markdown_block ((speaker, group) :: more)
      | [] => []
      end.
Proof.
  induction kept as [|s kept IH]; intros Hk file current.
  - simpl. now rewrite app_nil_r.
  - inversion Hk as [|? ? Hs Hk']; subst. cbn [fold_left].
    unfold TabletopNotetakerApp.write_markdown_segment at 2.
    unfold has_text in Hs. rewrite Hs. cbn [fst snd].
    set (heading := [newline] ++ lit "## " ++ speaker_of s ++ [newline; newline]).
    assert (Hstep : forall file',
              fst (fold_left TabletopNotetakerApp.write_markdown_segment kept
                     (file' ++ text_of s ++ [newline], Some (speaker_of s)))
              = file' ++
                match runs (s :: kept) with
                | (speaker, group) :: more =>
                    flat_map (fun x => text_of x ++ [newline]) group
                    ++ flat_map markdown_block more
                | [] => []
                end).
    { intros file'. rewrite (IH Hk'). cbn [runs].
      destruct (runs kept) as [|[speaker group] more].
      - cbn [flat_map]. now rewrite !app_nil_r.
      - destruct (str_eqb speaker (speaker_of s)) eqn:E.
        + apply str_eqb_true in E. subst speaker.
          assert (E' : str_eqb (speaker_of s) (speaker_of s) = true)
            by now apply str_eqb_true.
          rewrite E'. cbn [flat_map]. now rewrite <- !app_assoc.
        + assert (E' : str_eqb (speaker_of s) speaker = false).
          { apply str_eqb_false. apply str_eqb_false in E. congruence. }
          rewrite E'. cbn [flat_map]. now rewrite <- !app_assoc. }
    assert (Hhead : exists group more,
              runs (s :: kept) = (speaker_of s, group) :: more).
    { cbn [runs]. destruct (runs kept) as [|[speaker group] more];
        [now eexists _, _|].
      destruct (str_eqb (speaker_of s) speaker) eqn:E; [|now eexists _, _].
      apply str_eqb_true in E. subst speaker. now eexists _, _. }
    destruct Hhead as [group [more Hruns]].
    destruct current as [c|]; cbn [snd].
    + destruct (str_eqb (speaker_of s) c) eqn:E; cbn [fst snd].
      * pose proof E as Ec. apply str_eqb_true in Ec. subst c.
        rewrite Hstep, Hruns. rewrite E. reflexivity.
      * rewrite Hstep, Hruns. rewrite E. cbn [fst snd flat_map].
        unfold markdown_block. cbn [fst snd]. fold heading.
        now rewrite <- !app_assoc.
    + cbn [fst snd]. rewrite Hstep, Hruns. cbn [fst snd flat_map].
      unfold markdown_block. cbn [fst snd]. fold heading.
      now rewrite <- !app_assoc.
Qed.

Lemma runs_concat segments : concat (map snd (runs segments)) = segments.
Proof.
  induction segments as [|s segments IH]; [reflexivity|]. cbn [runs].
  destruct (runs segments) as [|[speaker group] more].
  - simpl in *. now rewrite <- IH.
  - destruct (str_eqb (speaker_of s) speaker); simpl in *; now rewrite <- IH.
Qed.

Lemma runs_groups segments :
  Forall (fun g => snd g <> []
                   /\ Forall (fun s => speaker_of s = fst g) (snd g))
    (runs segments).
Proof.
  induction segments as [|s segments IH]; [constructor|]. cbn [runs].
  destruct (runs segments) as [|[speaker group] more].
  - repeat constructor. discriminate.
  - inversion IH as [|? ? [Hne Hall] Hmore]; subst. simpl in *.
    destruct (str_eqb (speaker_of s) speaker) eqn:E.
    + apply str_eqb_true in E. constructor; [|assumption]. simpl.
      split; [discriminate|]. now constructor.
    + constructor; [|now constructor]. simpl.
      split; [discriminate|]. now repeat constructor.
Qed.

Lemma runs_alternate segments : speakers_alternate (runs segments).
Proof.
  induction segments as [|s segments IH]; [exact I|]. cbn [runs].
  destruct (runs segments) as [|[speaker group] more]; [exact I|].
  destruct (str_eqb (speaker_of s) speaker) eqn:E.
  - exact IH.
  - split; [now apply str_eqb_false in E|exact IH].
Qed.

(** ** Recording sessions *)

Lemma capture_while_recording chunks st :
  RecordingService.is_recording st = true ->
  RecordingService.recording_thread st = true ->
  capture chunks st
  = RecordingService.mkState
      (RecordingService.sample_rate st) (RecordingService.channels st)
      (RecordingService.chunk_size st) (RecordingService.audio st)
      (RecordingService.stream st)
      (RecordingService.frames st ++ chunks)
      true true (RecordingService.output_path st)
      (RecordingService.written st).
Proof.
  revert st. induction chunks as [|c chunks IH]; intros st Hr Ht.
  - simpl. rewrite app_nil_r. destruct st; simpl in *. now subst.
  - unfold capture in *. cbn [fold_left].
    rewrite IH.
    + unfold RecordingService.record_chunk. rewrite Hr, Ht. cbn.
      now rewrite <- app_assoc.
    + unfold RecordingService.record_chunk. now rewrite Hr, Ht.
    + unfold RecordingService.record_chunk. now rewrite Hr, Ht.
Qed.

Lemma capture_without_thread chunks st :
  RecordingService.is_recording st && RecordingService.recording_thread st
  = false ->
  capture chunks st = st.
Proof.
  intros H. induction chunks as [|c chunks IH]; [reflexivity|].
  unfold capture in *. cbn [fold_left].
  unfold RecordingService.record_chunk at 2. rewrite H. exact IH.
Qed.

Lemma service_session
    host1 host2 (path : str) chunks st :
  RecordingService.is_recording st = false ->
  pyaudio_ok host1 = true -> open_ok host1 = true ->
  teardown_ok host2 = true -> save_ok host2 = true ->
  path <> [] -> chunks <> [] ->
  let started := RecordingService.start_recording host1 (Some path) st in
  let stopped :=
    RecordingService.stop_recording host2 (capture chunks (fst started)) in
  snd started = Returned tt
  /\ snd stopped = Returned (Some path)
  /\ RecordingService.written (fst stopped)
     = RecordingService.written st ++ [(path, chunks)]
  /\ RecordingService.is_recording (fst stopped) = false.
Proof.
  intros Hidle Hp Ho Ht Hs Hpath Hchunks started stopped.
  subst stopped started. unfold RecordingService.start_recording.
  rewrite Hidle, Hp, Ho. cbn [negb fst snd].
  rewrite capture_while_recording by reflexivity.
  unfold RecordingService.stop_recording, RecordingService._save_recording.
  cbn [RecordingService.is_recording RecordingService.stream
       RecordingService.audio RecordingService.output_path
       RecordingService.frames RecordingService.written negb app].
  rewrite Ht, Hs. cbn [negb andb orb].
  destruct path as [|c path]; [congruence|].
  destruct chunks as [|d chunks]; [congruence|].
  cbn. repeat split.
Qed.

(** ** The window and the application *)

Lemma start_recording_path host clock path_str output app :
  exists p,
    TabletopNotetakerApp.current_recording_path
      (fst (TabletopNotetakerApp.start_recording host clock path_str
              output app))
    = Some (path_str p).
Proof.
  unfold TabletopNotetakerApp.start_recording.
  set (auto := lit "recording_" ++ now_compact clock ++ lit ".wav").
  destruct output as [p|];
    [destruct (truthy p)|];
    match goal with
    | |- context [RecordingService.start_recording ?h ?o ?s] =>
        destruct (RecordingService.start_recording h o s) as [svc [[]|]]
    end; cbn; eauto.
Qed.

Lemma start_recording_flag host clock path_str output app :
  TabletopNotetakerApp.is_recording
    (fst (TabletopNotetakerApp.start_recording host clock path_str
            output app))
  = snd (TabletopNotetakerApp.start_recording host clock path_str
           output app)
    || TabletopNotetakerApp.is_recording app.
Proof.
  unfold TabletopNotetakerApp.start_recording.
  match goal with
  | |- context [RecordingService.start_recording ?h ?o ?s] =>
      destruct (RecordingService.start_recording h o s) as [svc [[]|]]
  end; reflexivity.
Qed.

Lemma toggle_in_step host clock path_str st :
  (forall p, path_str p <> []) ->
  window_in_step st ->
  window_in_step (GUIInterface._toggle_recording host clock path_str st).
Proof.
  intros Hpath [Hflag Hcur]. unfold GUIInterface._toggle_recording.
  destruct (GUIInterface.recording st) eqn:Hrec; cbn [negb].
  - (* stop *)
    unfold GUIInterface._stop_recording,
      TabletopNotetakerApp.stop_recording.
    rewrite <- Hflag.
    destruct (RecordingService.stop_recording host
                (TabletopNotetakerApp.recording_service (GUIInterface.app st)))
      as [svc [r|]].
    + destruct (TabletopNotetakerApp.current_recording_path
                  (GUIInterface.app st)) as [p|] eqn:Ep.
      * assert (Hp : truthy p = true) by (apply truthy_true; now apply Hcur).
        rewrite Hp. split; cbn; [reflexivity|].
        intros q Hq. injection Hq as <-. now apply Hcur.
      * split; cbn; [reflexivity|discriminate].
    + split; cbn; [now rewrite Hrec|assumption].
  - (* start *)
    unfold GUIInterface._start_recording.
    set (filename := lit "recording_" ++ now_compact clock ++ lit ".wav").
    pose proof (start_recording_path host clock path_str (Some filename)
                  (GUIInterface.app st)) as [p Hp].
    pose proof (start_recording_flag host clock path_str (Some filename)
                  (GUIInterface.app st)) as Hf.
    destruct (TabletopNotetakerApp.start_recording host clock path_str
                (Some filename) (GUIInterface.app st)) as [app' ok].
    cbn [fst snd] in *. rewrite <- Hflag in Hf.
    destruct ok; split; cbn; try (now rewrite Hf);
      intros q Hq; rewrite Hp in Hq; injection Hq as <-; apply Hpath.
Qed.


Lemma service_session_states host1 host2 (path : str) chunks st :
  RecordingService.is_recording st = false ->
  pyaudio_ok host1 = true -> open_ok host1 = true ->
  teardown_ok host2 = true -> save_ok host2 = true ->
  path <> [] -> chunks <> [] ->
  exists st1 st2,
    RecordingService.start_recording host1 (Some path) st
    = (st1, Returned tt)
    /\ RecordingService.stop_recording host2 (capture chunks st1)
       = (st2, Returned (Some path))
    /\ RecordingService.written st2
       = RecordingService.written st ++ [(path, chunks)]
    /\ RecordingService.is_recording st2 = false.
Proof.
  intros Hidle Hp Ho Ht Hs Hpath Hchunks.
  pose proof (service_session host1 host2 path chunks st
                Hidle Hp Ho Ht Hs Hpath Hchunks) as H.
  cbv zeta in H. destruct H as (H1 & H2 & H3 & H4).
  destruct (RecordingService.start_recording host1 (Some path) st)
    as [st1 r1] eqn:E1.
  cbn [fst snd] in *. subst r1.
  destruct (RecordingService.stop_recording host2 (capture chunks st1))
    as [st2 r2] eqn:E2.
  cbn [fst snd] in *. subst r2. exists st1, st2.
  split; [reflexivity|]. split; [exact E2|]. split; assumption.
Qed.




(** ** Substrings *)

Lemma contains_nil s : contains [] s = true.
Proof. destruct s; reflexivity. Qed.

Lemma contains_cons sub c s :
  contains sub s = true -> contains sub (c :: s) = true.
Proof.
  unfold contains. cbn [index_from].
  destruct (startswith sub (c :: s)); [reflexivity|].
  destruct (index_from sub s); [reflexivity|discriminate].
Qed.

Lemma contains_startswith sub s :
  startswith sub s = true -> contains sub s = true.
Proof.
  unfold contains. intros H. destruct s; cbn [index_from]; now rewrite H.
Qed.

Lemma contains_inv sub c s :
  contains sub (c :: s) = true ->
  startswith sub (c :: s) = true \/ contains sub s = true.
Proof.
  unfold contains. cbn [index_from].
  destruct (startswith sub (c :: s)); [now left|].
  destruct (index_from sub s); [now right|discriminate].
Qed.

Lemma contains_skipn sub n s :
  contains sub (skipn n s) = true -> contains sub s = true.
Proof.
  revert s. induction n as [|n IH]; intros s; [trivial|].
  destruct s as [|c s]; [trivial|]. cbn [skipn]. intros H.
  now apply contains_cons, IH.
Qed.

Lemma contains_firstn sub n s :
  contains sub (firstn n s) = true -> contains sub s = true.
Proof.
  revert n. induction s as [|c s IH]; intros n.
  - now rewrite firstn_nil.
  - destruct n as [|n].
    + cbn [firstn]. intros H.
      assert (E : sub = []).
      { destruct sub; [reflexivity|discriminate H]. }
      subst sub. apply contains_nil.
    + cbn [firstn]. intros H. apply contains_inv in H. destruct H as [H|H].
      * apply contains_startswith.
        now apply (startswith_firstn sub (S n) (c :: s)).
      * now apply contains_cons, (IH n).
Qed.

Lemma lstrip_is_skipn s : exists n, lstrip s = skipn n s.
Proof.
  induction s as [|c s [n IH]]; [now exists 0|]. simpl.
  destruct (isspace c); [now exists (S n)|now exists 0].
Qed.

Lemma rstrip_is_firstn s : exists n, rstrip s = firstn n s.
Proof.
  unfold rstrip. destruct (lstrip_is_skipn (rev s)) as [n ->].
  rewrite skipn_rev, rev_involutive. now eexists.
Qed.

Lemma contains_strip sub s :
  contains sub (strip s) = true -> contains sub s = true.
Proof.
  unfold strip. destruct (rstrip_is_firstn (lstrip s)) as [n ->].
  destruct (lstrip_is_skipn s) as [m ->]. intros H.
  now apply contains_firstn, contains_skipn in H.
Qed.

Lemma firstn_In {A} n (l : list A) x : In x (firstn n l) -> In x l.
Proof.
  intros H. rewrite <- (firstn_skipn n l). apply in_or_app. now left.
Qed.

Lemma skipn_In {A} n (l : list A) x : In x (skipn n l) -> In x l.
Proof.
  intros H. rewrite <- (firstn_skipn n l). apply in_or_app. now right.
Qed.

Lemma split_char_In sep s line c :
  In line (split_char sep s) -> In c line -> In c s /\ c <> sep.
Proof.
  revert line. induction s as [|d s IH]; intros line; simpl.
  - intros [<-|[]] [].
  - destruct (ascii_dec d sep) as [->|Hne].
    + intros [<-|H] Hc; [destruct Hc|]. destruct (IH _ H Hc). auto.
    + destruct (split_char sep s) as [|p ps] eqn:E.
      * intros [<-|[]] [<-|[]]. auto.
      * intros [<-|H] Hc.
        -- destruct Hc as [<-|Hc]; [auto|].
           destruct (IH p (or_introl eq_refl) Hc). auto.
        -- destruct (IH line (or_intror H) Hc). auto.
Qed.

(** ** What the parser yields *)

Lemma parse_line_result line :
  ~ In newline line ->
  CLIInterface.parse_line [] line = []
  \/ exists sp tx,
       CLIInterface.parse_line [] line = [parsed sp tx]
       /\ strip sp = sp /\ strip tx = tx
       /\ contains (lit "]:") sp = false
       /\ ~ In newline sp /\ ~ In newline tx.
Proof.
  intros Hnl. unfold CLIInterface.parse_line.
  destruct (truthy (strip line) && contains (lit "[") (strip line)
            && contains (lit "]:") (strip line)) eqn:E; [|now left].
  right. apply andb_true_iff in E. destruct E as [_ E].
  set (L := strip line) in *.
  assert (HnlL : ~ In newline L).
  { intros H. apply Hnl. now apply strip_In. }
  unfold contains in E. unfold find.
  destruct (index_from (lit "]:") L) as [i|] eqn:Ei; [|discriminate].
  eexists _, _. split; [reflexivity|].
  split; [apply strip_idem|]. split; [apply strip_idem|].
  split; [|split].
  - destruct (contains (lit "]:") (strip (slice L 1 (Z.of_nat i)))) eqn:Ec;
      [exfalso|reflexivity].
    apply contains_strip in Ec. unfold slice, clamp in Ec.
    replace (Z.of_nat i <? 0)%Z with false in Ec
      by (symmetry; apply Z.ltb_ge; lia).
    change (1 <? 0)%Z with false in Ec. cbv iota in Ec.
    rewrite Nat2Z.id in Ec. change (Z.to_nat 1) with 1 in Ec.
    assert (Hsub : firstn (Nat.min i (length L) - Nat.min 1 (length L))
                     (skipn (Nat.min 1 (length L)) L)
                   = skipn (Nat.min 1 (length L))
                       (firstn (Nat.min i (length L)) (firstn i L))).
    { rewrite firstn_firstn.
      replace (Nat.min (Nat.min i (length L)) i) with (Nat.min i (length L))
        by lia.
      now rewrite skipn_firstn_comm. }
    rewrite Hsub in Ec. apply contains_skipn, contains_firstn in Ec.
    change (lit "]:") with ("]"%char :: [":"%char]) in *.
    apply index_from_first in Ei. destruct Ei as [_ Hfirst]. congruence.
  - intros H. apply HnlL. apply strip_In in H. unfold slice in H.
    now apply firstn_In, skipn_In in H.
  - intros H. apply HnlL. apply strip_In in H. unfold slice_from in H.
    now apply skipn_In in H.
Qed.

Lemma split_char_lines sep s :
  Forall (fun line => ~ In sep line) (split_char sep s).
Proof.
  apply Forall_forall. intros line Hin Hc.
  destruct (split_char_In sep s line sep Hin Hc) as [_ H]. now apply H.
Qed.

Lemma parsed_segments_shape content :
  Forall (fun s => exists sp tx,
                     s = parsed sp tx
                     /\ strip sp = sp /\ strip tx = tx
                     /\ contains (lit "]:") sp = false
                     /\ ~ In newline sp /\ ~ In newline tx)
    (flat_map (CLIInterface.parse_line []) (split_char newline content)).
Proof.
  apply Forall_flat_map.
  pose proof (split_char_lines newline content) as Hlines.
  apply Forall_forall. intros line Hline.
  rewrite Forall_forall in Hlines. specialize (Hlines line Hline).
  destruct (parse_line_result line Hlines) as [->|[sp [tx [-> H]]]];
    [constructor|].
  constructor; [|constructor]. now exists sp, tx.
Qed.

Lemma parsed_segments content :
  tr_segments (CLIInterface._parse_transcript_file content)
  = Some (flat_map (CLIInterface.parse_line [])
            (split_char newline content)).
Proof.
  unfold CLIInterface._parse_transcript_file. cbn [tr_segments].
  now rewrite parse_lines_flat.
Qed.

(** ** Text files *)

Lemma newline_not_carriage_return : newline <> TextFile.carriage_return.
Proof. discriminate. Qed.

Lemma read_write_text platform s :
  ~ In TextFile.carriage_return s ->
  TextFile.read_text (TextFile.write_text platform s) = s.
Proof.
  induction s as [|c s IH]; intros Hcr; [reflexivity|].
  assert (Hc : c <> TextFile.carriage_return).
  { intros ->. apply Hcr. now left. }
  assert (Hs : ~ In TextFile.carriage_return s).
  { intros H. apply Hcr. now right. }
  unfold TextFile.write_text. cbn [flat_map].
  fold (TextFile.write_text platform s).
  destruct (ascii_dec c newline) as [->|Hn].
  - destruct platform; cbn [TextFile.linesep app TextFile.read_text].
    + destruct (ascii_dec newline TextFile.carriage_return);
        [contradiction|]. now rewrite IH.
    + destruct (ascii_dec TextFile.carriage_return TextFile.carriage_return);
        [|contradiction].
      destruct (ascii_dec newline newline); [|contradiction]. now rewrite IH.
  - cbn [app TextFile.read_text].
    destruct (ascii_dec c TextFile.carriage_return); [contradiction|].
    now rewrite IH.
Qed.

Lemma read_text_clean_upto n file :
  length file <= n ->
  ~ In TextFile.carriage_return (TextFile.read_text file).
Proof.
  revert file. induction n as [|n IH]; intros file Hlen.
  - destruct file; [intros []|simpl in Hlen; lia].
  - destruct file as [|c rest]; [intros []|]. simpl in Hlen.
    cbn [TextFile.read_text].
    destruct (ascii_dec c TextFile.carriage_return) as [->|Hc].
    + destruct rest as [|d rest']; [intros [H|[]]; discriminate H|].
      simpl in Hlen. destruct (ascii_dec d newline).
      * intros [H|H]; [discriminate H|]. revert H. apply IH. lia.
      * intros [H|H]; [discriminate H|]. revert H. apply IH. simpl. lia.
    + intros [H|H]; [congruence|]. revert H. apply IH. lia.
Qed.

Lemma read_text_clean file :
  ~ In TextFile.carriage_return (TextFile.read_text file).
Proof. now apply (read_text_clean_upto (length file)). Qed.

Lemma survives_file_reads_back kept :
  Forall survives_file kept -> Forall reads_back kept.
Proof. apply Forall_impl. now intros s [H _]. Qed.

Lemma saved_text_clean clock transcript :
  date_like (now_pretty clock) = true ->
  Forall survives_file (filter has_text (get (tr_segments transcript) [])) ->
  ~ In TextFile.carriage_return
      (TabletopNotetakerApp._save_as_text clock transcript).
Proof.
  intros Hd Hs. rewrite saved_text_shape. intros Hin.
  apply in_app_or in Hin. destruct Hin as [Hin|Hin].
  { revert Hin. apply not_In_by_test. reflexivity. }
  destruct Hin as [Hin|Hin]; [discriminate Hin|].
  apply in_app_or in Hin. destruct Hin as [Hin|Hin].
  { apply in_app_or in Hin. destruct Hin as [Hin|Hin].
    - revert Hin. apply not_In_by_test. reflexivity.
    - unfold date_like in Hd. rewrite forallb_forall in Hd.
      apply Hd in Hin. discriminate Hin. }
  destruct Hin as [Hin|Hin]; [discriminate Hin|].
  cbn [app] in Hin. destruct Hin as [Hin|Hin]; [discriminate Hin|].
  apply in_flat_map in Hin. destruct Hin as (s & Hkept & Hin).
  rewrite Forall_forall in Hs. destruct (Hs s Hkept) as (_ & Hsp & Htx).
  unfold written_line in Hin. rewrite !in_app_iff in Hin.
  destruct Hin as [Hin|[Hin|[Hin|[Hin|Hin]]]]; try tauto.
  - destruct Hin as [Hin|[]]. discriminate Hin.
  - repeat (destruct Hin as [Hin|Hin]; [discriminate Hin|]). destruct Hin.
  - destruct Hin as [Hin|[]]. discriminate Hin.
Qed.

Lemma read_back_file platform clock transcript :
  date_like (now_pretty clock) = true ->
  Forall survives_file (filter has_text (get (tr_segments transcript) [])) ->
  tr_segments
    (CLIInterface.read_transcript
       (TabletopNotetakerApp.saved_text_file clock platform transcript))
  = Some (map (fun s => parsed (speaker_of s) (text_of s))
            (filter has_text (get (tr_segments transcript) []))).
Proof.
  intros Hd Hs.
  unfold CLIInterface.read_transcript, TabletopNotetakerApp.saved_text_file.
  rewrite read_write_text by now apply saved_text_clean.
  apply read_back_segments; [assumption|].
  now apply survives_file_reads_back.
Qed.

Lemma parse_line_chars line s c :
  In s (CLIInterface.parse_line [] line) ->
  In c (speaker_of s) \/ In c (get (seg_text s) []) -> In c line.
Proof.
  unfold CLIInterface.parse_line.
  destruct (truthy (strip line) && contains (lit "[") (strip line)
            && contains (lit "]:") (strip line)); [|intros []].
  intros [<-|[]]. cbn [speaker_of seg_speaker seg_text get].
  intros [H|H]; apply strip_In in H; apply strip_In.
  - unfold slice in H. now apply firstn_In, skipn_In in H.
  - unfold slice_from in H. now apply skipn_In in H.
Qed.

Lemma parsed_segments_chars content s c :
  In s (flat_map (CLIInterface.parse_line []) (split_char newline content)) ->
  In c (speaker_of s) \/ In c (get (seg_text s) []) -> In c content.
Proof.
  intros Hs Hc. apply in_flat_map in Hs. destruct Hs as (line & Hline & Hs).
  pose proof (parse_line_chars line s c Hs Hc) as Hin.
  now destruct (split_char_In newline content line c Hline Hin).
Qed.

(** ** Commands *)

Lemma isspace_lower c : isspace (lower_char c) = isspace c.
Proof. destruct c as [[] [] [] [] [] [] [] []]; vm_compute; reflexivity. Qed.

Lemma lower_idem s : lower (lower s) = lower s.
Proof.
  unfold lower. rewrite map_map. apply map_ext. apply lower_char_idem.
Qed.

Lemma lstrip_lower s : lstrip (lower s) = lower (lstrip s).
Proof.
  induction s as [|c s IH]; [reflexivity|]. cbn [lower map lstrip].
  rewrite isspace_lower. destruct (isspace c); [exact IH|reflexivity].
Qed.

Lemma strip_lower s : strip (lower s) = lower (strip s).
Proof.
  unfold strip, rstrip. rewrite lstrip_lower. unfold lower at 1.
  rewrite <- map_rev. fold (lower (rev (lstrip s))).
  rewrite lstrip_lower. unfold lower. now rewrite map_rev.
Qed.

Lemma split_runs_words cur s w :
  forallb (fun c => negb (isspace c)) cur = true ->
  In w (split_runs cur s) ->
  w <> [] /\ forall c, In c w -> isspace c = false /\ (In c cur \/ In c s).
Proof.
  revert cur. induction s as [|d s IH]; intros cur Hcur; simpl.
  - destruct cur as [|a cur]; [intros []|]. intros [<-|[]]. split.
    + intros E. apply (f_equal (@rev ascii)) in E.
      rewrite rev_involutive in E. discriminate E.
    + intros c Hc. apply in_rev in Hc. split; [|now left].
      rewrite forallb_forall in Hcur. apply Hcur in Hc.
      now apply negb_true_iff in Hc.
  - destruct (isspace d) eqn:E.
    + destruct cur as [|a cur].
      * intros Hw. destruct (IH [] eq_refl Hw) as [H1 H2]. split; [assumption|].
        intros c Hc. destruct (H2 c Hc) as [H3 [[]|H4]]. auto.
      * intros [<-|Hw].
        -- split.
           ++ intros E'. apply (f_equal (@rev ascii)) in E'.
              rewrite rev_involutive in E'. discriminate E'.
           ++ intros c Hc. apply in_rev in Hc. split; [|now left].
              rewrite forallb_forall in Hcur. apply Hcur in Hc.
              now apply negb_true_iff in Hc.
        -- destruct (IH [] eq_refl Hw) as [H1 H2]. split; [assumption|].
           intros c Hc. destruct (H2 c Hc) as [H3 [[]|H4]]. auto.
    + intros Hw.
      assert (Hcur' : forallb (fun c => negb (isspace c)) (d :: cur) = true).
      { simpl. now rewrite E. }
      destruct (IH (d :: cur) Hcur' Hw) as [H1 H2]. split; [assumption|].
      intros c Hc. destruct (H2 c Hc) as [H3 [[<-|H4]|H4]]; auto.
Qed.

Lemma split_ws_lowered typed w :
  In w (split_ws (lower typed)) ->
  lower w = w /\ w <> [] /\ forallb (fun c => negb (isspace c)) w = true.
Proof.
  intros Hw. destruct (split_runs_words [] (lower typed) w eq_refl Hw)
    as [Hne Hc].
  split; [|split; [assumption|]].
  - unfold lower at 1. rewrite <- (map_id w) at 2. apply map_ext_in.
    intros c Hin. destruct (Hc c Hin) as [_ [[]|H]].
    unfold lower in H. apply in_map_iff in H. destruct H as [d [<- _]].
    apply lower_char_idem.
  - apply forallb_forall. intros c Hin. destruct (Hc c Hin) as [H _].
    now rewrite H.
Qed.

Lemma summarize_nonempty set_iter clock transcript format_type :
  truthy (summarize set_iter clock transcript format_type) = true.
Proof.
  unfold summarize.
  destruct (get (tr_segments transcript) []) as [|s rest]; [reflexivity|].
  cbn [nonempty negb].
  destruct (str_eqb format_type (lit "md"));
    [|destruct (str_eqb format_type (lit "json"))]; reflexivity.
Qed.

(** * The properties of the specification *)

Lemma insertion_order_ok : set_order insertion_order.
Proof. intros s _. apply Permutation_refl. Qed.

Lemma reverse_order_ok : set_order reverse_order.
Proof. intros s _. apply Permutation_sym, Permutation_rev. Qed.

Lemma frequent_and_ordered_keywords text :
  frequent_and_ordered (tokens text) (_extract_keywords text).
Proof.
  split.
  - intros k Hk. now apply keyword_counted in Hk.
  - intros l1 a l2 b l3 E. apply keyword_order. rewrite E.
    apply precedes_split.
Qed.

Lemma frequent_and_ordered_firstn words ks n :
  frequent_and_ordered words ks -> frequent_and_ordered words (firstn n ks).
Proof.
  intros [Hf Ho]. split.
  - intros k Hk. apply Hf. rewrite <- (firstn_skipn n ks).
    apply in_or_app. now left.
  - intros l1 a l2 b l3 E.
    apply (Ho l1 a l2 b (l3 ++ skipn n ks)).
    rewrite <- (firstn_skipn n ks) at 1. rewrite E.
    now rewrite <- !app_assoc, <- !app_comm_cons, <- !app_assoc,
      <- !app_comm_cons.
Qed.

(** C1 (amended).  For every list of segments, the speakers list of the
    SummaryData produced by extraction contains exactly the distinct
    speaker labels of segments with non-empty trimmed text, with no
    duplicates; it is a rearrangement of their first-appearance order, in
    whatever order the set of speakers is enumerated. *)
Theorem C1_speakers_exactly_the_distinct_labels set_iter segments :
  set_order set_iter ->
  let labels := speakers (_extract_summary_data set_iter segments) in
  Permutation labels (distinct (map speaker_of (filter has_text segments)))
  /\ NoDup labels
  /\ (forall s, In s labels <->
        exists segment,
          In segment segments /\ text_of segment <> [] /\ speaker_of segment = s).
Proof.
  intros Hord labels.
  assert (HP : Permutation labels
                 (distinct (map speaker_of (filter has_text segments)))).
  { unfold labels, _extract_summary_data. simpl. rewrite scan_speakers.
    apply Hord, distinct_NoDup. }
  split; [assumption|]. split.
  - apply (Permutation_NoDup (Permutation_sym HP)), distinct_NoDup.
  - intros s. split.
    + intros H. apply (Permutation_in _ HP) in H.
      apply -> distinct_In in H. apply in_map_iff in H.
      destruct H as [seg [<- H]]. apply filter_In in H. destruct H as [H Ht].
      exists seg. split; [assumption|]. split; [|reflexivity].
      now apply truthy_true.
    + intros [seg [Hin [Ht <-]]].
      apply (Permutation_in _ (Permutation_sym HP)).
      apply distinct_In, in_map, filter_In. split; [assumption|].
      now apply truthy_true.
Qed.

Lemma C1_speakers_witness :
  let labels := speakers (_extract_summary_data reverse_order meeting) in
  Permutation labels (distinct (map speaker_of (filter has_text meeting)))
  /\ NoDup labels
  /\ (forall s, In s labels <->
        exists segment,
          In segment meeting /\ text_of segment <> [] /\ speaker_of segment = s).
Proof.
  apply (C1_speakers_exactly_the_distinct_labels reverse_order meeting).
  intros s _. apply Permutation_sym, Permutation_rev.
Defined.

(** C1 as stated fails: a set has no order of its own.  With the speakers
    of the test transcript enumerated last-added first, which is an order a
    set may have, the speakers list is Bob, Alice while the order of first
    appearance is Alice, Bob. *)
Lemma C1_first_appearance_order_counterexample :
  set_order reverse_order
  /\ speakers (_extract_summary_data reverse_order meeting)
     = [lit "Bob"; lit "Alice"]
  /\ distinct (map speaker_of (filter has_text meeting))
     = [lit "Alice"; lit "Bob"]
  /\ ~ (forall set_iter, set_order set_iter ->
        forall segments,
          speakers (_extract_summary_data set_iter segments)
          = distinct (map speaker_of (filter has_text segments))).
Proof.
  split; [exact reverse_order_ok|].
  split; [vm_compute; reflexivity|].
  split; [vm_compute; reflexivity|].
  intros H. specialize (H reverse_order reverse_order_ok meeting).
  vm_compute in H. discriminate H.
Qed.

(** C2 (amended).  For every transcript in which each segment with
    non-empty trimmed text has a speaker label that is trimmed and holds
    neither "]:" nor a line break nor a carriage return, and a trimmed text
    that holds neither a line break nor a carriage return, writing it as a
    plain-text transcript file and then reading that file and parsing its
    text back yields segments whose (speaker, text) pairs equal the
    (speaker, trimmed text) pairs of the transcript's segments with
    non-empty trimmed text, in the same order; this on either platform's
    line ending. *)
Theorem C2_written_transcript_reads_back platform clock transcript :
  date_like (now_pretty clock) = true ->
  Forall survives_file (filter has_text (get (tr_segments transcript) [])) ->
  read_back_pairs platform clock transcript = kept_pairs transcript.
Proof.
  intros Hd Hs. unfold read_back_pairs, kept_pairs.
  rewrite read_back_file by assumption. cbn [get].
  rewrite map_map. reflexivity.
Qed.

Lemma C2_written_transcript_witness :
  read_back_pairs TextFile.Windows noon
    (mkTranscript None None None (Some meeting) None)
  = kept_pairs (mkTranscript None None None (Some meeting) None).
Proof.
  apply (C2_written_transcript_reads_back TextFile.Windows noon
           (mkTranscript None None None (Some meeting) None)).
  - reflexivity.
  - assert (E : filter has_text meeting = meeting) by reflexivity.
    cbn [get tr_segments]. rewrite E. unfold survives_file, reads_back.
    repeat constructor;
      first [ vm_compute; reflexivity
            | apply not_In_by_test; vm_compute; reflexivity ].
Defined.

(** C2 as stated fails: a text that runs over two lines is written as two
    lines and only the first is read back, and so is a text that holds a
    carriage return, which the file read turns into a line break; a
    speaker label is read back trimmed and cut at its first "]:"; a label
    that runs over two lines is not read back at all. *)
Lemma C2_round_trip_counterexample :
  let two_lines := lit "first line" ++ [newline] ++ lit "second line" in
  let returned := lit "first" ++ [TextFile.carriage_return] ++ lit "second" in
  let read_back := read_back_pairs TextFile.Posix noon in
  (read_back (spoken (lit "Bob") two_lines)
   = [(lit "Bob", lit "first line")]
   /\ kept_pairs (spoken (lit "Bob") two_lines) = [(lit "Bob", two_lines)])
  /\ (read_back (spoken (lit "Bob") returned) = [(lit "Bob", lit "first")]
      /\ kept_pairs (spoken (lit "Bob") returned) = [(lit "Bob", returned)])
  /\ (read_back (spoken (lit " Bob") (lit "hi")) = [(lit "Bob", lit "hi")]
      /\ kept_pairs (spoken (lit " Bob") (lit "hi")) = [(lit " Bob", lit "hi")])
  /\ (read_back (spoken (lit "a]:b") (lit "hi")) = [(lit "a", lit "b]: hi")]
      /\ kept_pairs (spoken (lit "a]:b") (lit "hi")) = [(lit "a]:b", lit "hi")])
  /\ (read_back (spoken (lit "a" ++ [newline] ++ lit "b") (lit "hi")) = []
      /\ kept_pairs (spoken (lit "a" ++ [newline] ++ lit "b") (lit "hi"))
         = [(lit "a" ++ [newline] ++ lit "b", lit "hi")])
  /\ read_back (spoken (lit "Bob") two_lines)
     <> kept_pairs (spoken (lit "Bob") two_lines).
Proof.
  repeat split; try (vm_compute; reflexivity).
  vm_compute. discriminate.
Qed.

(** C3.  For every input text, every token in the extracted keywords list
    has corpus frequency strictly greater than 1, the list is sorted in
    descending frequency with ties broken by first-occurrence order in the
    text, and after the cap it has at most 15 entries. *)
Theorem C3_keywords_frequent_sorted_capped :
  (forall text, frequent_and_ordered (tokens text) (_extract_keywords text))
  /\ (forall set_iter segments,
        let ks := keywords (_extract_summary_data set_iter segments) in
        ks = firstn 15 (_extract_keywords (corpus segments))
        /\ frequent_and_ordered (tokens (corpus segments)) ks
        /\ length ks <= 15).
Proof.
  split; [exact frequent_and_ordered_keywords|].
  intros set_iter segments ks. unfold ks.
  rewrite extracted_keywords. split; [reflexivity|]. split.
  - apply frequent_and_ordered_firstn, frequent_and_ordered_keywords.
  - apply firstn_le_length.
Qed.

Lemma C3_keywords_witness :
  let words := tokens (lit "beta alpha alpha. Beta gamma; delta delta delta") in
  _extract_keywords (lit "beta alpha alpha. Beta gamma; delta delta delta")
  = [lit "delta"; lit "beta"; lit "alpha"]
  /\ count_occ str_eq_dec words (lit "alpha")
     <= count_occ str_eq_dec words (lit "beta")
  /\ (count_occ str_eq_dec words (lit "beta")
      = count_occ str_eq_dec words (lit "alpha") ->
      index_of (lit "beta") words < index_of (lit "alpha") words).
Proof.
  intros words. split; [vm_compute; reflexivity|].
  apply (proj2 (proj1 C3_keywords_frequent_sorted_capped
                  (lit "beta alpha alpha. Beta gamma; delta delta delta"))
           [lit "delta"] (lit "beta") [] (lit "alpha") []).
  vm_compute. reflexivity.
Defined.

(** C4.  For every list of segments, the extracted SummaryData satisfies:
    length of keyPoints <= 10, length of actionItems <= 5, length of
    keywords <= 15, and the summary text is a join of at most 3 sentences
    drawn from the first 5 substantial (length > 20) sentences in original
    order. *)
Theorem C4_extraction_caps set_iter segments :
  let data := _extract_summary_data set_iter segments in
  length (key_points data) <= 10
  /\ length (action_items data) <= 5
  /\ length (keywords data) <= 15
  /\ exists chosen rest,
       summary_text data = join (lit " ") chosen
       /\ length chosen <= 3
       /\ firstn 5 (substantial_sentences (corpus segments)) = chosen ++ rest
       /\ Forall (fun s => 20 < length s) chosen.
Proof.
  intros data. unfold data.
  split; [apply firstn_le_length|].
  split; [apply firstn_le_length|].
  split; [apply firstn_le_length|].
  set (five := firstn 5 (substantial_sentences (corpus segments))).
  exists (firstn 3 five), (skipn 3 five).
  split; [apply extracted_summary_text|].
  split; [apply firstn_le_length|].
  split; [symmetry; apply firstn_skipn|].
  apply Forall_forall. intros s Hs.
  assert (H : In s (substantial_sentences (corpus segments))).
  { unfold five in Hs. rewrite <- (firstn_skipn 5 (substantial_sentences _)).
    apply in_or_app. left.
    rewrite <- (firstn_skipn 3 (firstn 5 _)). apply in_or_app. now left. }
  apply filter_In in H. destruct H as [_ H]. now apply Nat.ltb_lt in H.
Qed.

(** C5.  For every transcript whose segments list is empty, and for every
    format type (txt, md, json, or any other string), summarize returns
    exactly the string "No transcript content to summarize.". *)
Theorem C5_summarize_empty set_iter clock transcript format_type :
  get (tr_segments transcript) [] = [] ->
  summarize set_iter clock transcript format_type
  = lit "No transcript content to summarize.".
Proof. intros H. unfold summarize. rewrite H. reflexivity. Qed.

Lemma C5_summarize_empty_witness :
  summarize insertion_order noon
    (mkTranscript (Some (lit "a.wav")) None None (Some []) (Some (lit "boom")))
    (lit "json")
  = lit "No transcript content to summarize.".
Proof.
  apply (C5_summarize_empty insertion_order noon
           (mkTranscript (Some (lit "a.wav")) None None (Some [])
              (Some (lit "boom")))
           (lit "json")).
  reflexivity.
Defined.

(** C6 (amended).  For every input line of a transcript text file whose
    trimmed form opens with '[' and holds a "]:", the parser extracts the
    speaker as the trimmed text between that '[' and the first "]:" and
    the text as the remainder trimmed; it ignores lines whose trimmed form
    is empty, holds no '[' or holds no "]:"; the reconstructed result
    carries start=0 and end=0 on every segment and duration equal to 10
    times the number of reconstructed segments. *)
Theorem C6_parser_reads_bracketed_lines content :
  let transcript := CLIInterface._parse_transcript_file content in
  let segments :=
    flat_map (CLIInterface.parse_line []) (split_char newline content) in
  tr_segments transcript = Some segments
  /\ tr_duration transcript = Some (NInt (10 * Z.of_nat (length segments)))
  /\ Forall (fun s => seg_start s = Some (NFloat (lit "0.0"))
                      /\ seg_end s = Some (NFloat (lit "0.0"))) segments
  /\ (forall line sp rest,
        strip line = lit "[" ++ sp ++ lit "]:" ++ rest ->
        contains (lit "]:") sp = false ->
        CLIInterface.parse_line [] line = [parsed (strip sp) (strip rest)])
  /\ (forall line,
        startswith (lit "[") (strip line) = true ->
        contains (lit "]:") (strip line) = true ->
        exists sp rest,
          strip line = lit "[" ++ sp ++ lit "]:" ++ rest
          /\ contains (lit "]:") sp = false
          /\ CLIInterface.parse_line [] line
             = [parsed (strip sp) (strip rest)])
  /\ (forall line,
        strip line = [] \/ contains (lit "[") (strip line) = false
        \/ contains (lit "]:") (strip line) = false ->
        CLIInterface.parse_line [] line = []).
Proof.
  intros transcript segments.
  assert (E : fold_left CLIInterface.parse_line (split_char newline content) []
              = segments) by apply parse_lines_flat.
  unfold transcript, CLIInterface._parse_transcript_file. rewrite E.
  split; [reflexivity|]. split; [cbn [tr_duration]; do 2 f_equal; lia|].
  split.
  - unfold segments. apply Forall_flat_map, Forall_forall. intros line _.
    apply parse_line_placeholders.
  - split; [|split].
    + intros line sp rest H1 H2. now apply (parse_line_shape [] line sp rest).
    + intros line Hopen Hhas.
      destruct (bracketed_line_split (strip line) Hopen Hhas)
        as [sp [rest [Hline Hsp]]].
      exists sp, rest. split; [assumption|]. split; [assumption|].
      now apply (parse_line_shape [] line sp rest).
    + intros line H. now apply parse_line_ignored.
Qed.

Lemma C6_parser_witness :
  CLIInterface.parse_line [] (lit "  [ Game Master ]:   Roll for it.  ")
  = [parsed (strip (lit " Game Master ")) (strip (lit "   Roll for it."))].
Proof.
  apply (proj1 (proj2 (proj2 (proj2 (C6_parser_reads_bracketed_lines []))))
           (lit "  [ Game Master ]:   Roll for it.  ")
           (lit " Game Master ") (lit "   Roll for it.")).
  - vm_compute. reflexivity.
  - vm_compute. reflexivity.
Defined.

(** C6 as stated fails: the speaker is trimmed, not everything between the
    brackets; it is cut from the second character of the line, wherever
    the first '[' stands; and a line whose "]:" comes before its '[' is
    not ignored. *)
Lemma C6_speaker_extraction_counterexample :
  let read := fun line =>
    tr_segments (CLIInterface._parse_transcript_file (lit line)) in
  (between_brackets (lit "[ Bob ]: hi") = Some (lit " Bob ")
   /\ read "[ Bob ]: hi"%string = Some [parsed (lit "Bob") (lit "hi")])
  /\ (between_brackets (lit "x[Bob]: hi") = Some (lit "Bob")
      /\ read "x[Bob]: hi"%string = Some [parsed (lit "[Bob") (lit "hi")])
  /\ (between_brackets (lit "]: [a") = None
      /\ read "]: [a"%string = Some [parsed [] (lit "[a")]).
Proof. repeat split; vm_compute; reflexivity. Qed.

(** C7, on the code.  With a recording to session1.wav in progress,
    [start_recording("session2.wav")] reports success and replaces the
    current recording path, while the recording service, which refuses the
    second start, keeps recording to session1.wav. *)
Theorem C7_start_while_recording_on_the_code :
  TabletopNotetakerApp.is_recording recording_session1 = true
  /\ TabletopNotetakerApp.current_recording_path recording_session1
     = Some (lit "session1.wav")
  /\ let again :=
       TabletopNotetakerApp.start_recording studio noon same_path
         (Some (lit "session2.wav")) recording_session1 in
     snd again = true
     /\ TabletopNotetakerApp.current_recording_path (fst again)
        = Some (lit "session2.wav")
     /\ TabletopNotetakerApp.recording_service (fst again)
        = TabletopNotetakerApp.recording_service recording_session1
     /\ RecordingService.output_path
          (TabletopNotetakerApp.recording_service (fst again))
        = Some (lit "session1.wav").
Proof. repeat split; vm_compute; reflexivity. Qed.

(** C8, on the code.  With a recording in progress and no chunk captured,
    the recording service returns none and writes no file, and
    [stop_recording] of the application still returns the path and lists
    it among the recordings. *)
Theorem C8_stop_without_audio_on_the_code :
  RecordingService.frames
    (TabletopNotetakerApp.recording_service recording_session1) = []
  /\ snd (RecordingService.stop_recording studio
            (TabletopNotetakerApp.recording_service recording_session1))
     = Returned None
  /\ let stopped :=
       TabletopNotetakerApp.stop_recording studio recording_session1 in
     snd stopped = Some (lit "session1.wav")
     /\ RecordingService.written
          (TabletopNotetakerApp.recording_service (fst stopped)) = []
     /\ TabletopNotetakerApp.recordings (fst stopped) = [lit "session1.wav"].
Proof. repeat split; vm_compute; reflexivity. Qed.

(** C9 (amended).  In every rendered text or Markdown summary, each of the
    summary, key points, action items and keywords sections whose content
    is empty is omitted entirely, including its header, and no header line
    of these four sections is ever emitted with no content under it; the
    participants header is always emitted. *)
Theorem C9_optional_sections_omitted_when_empty
    set_iter clock segments transcript :
  let data := _extract_summary_data set_iter segments in
  let text := text_summary_lines clock data transcript in
  let markdown := markdown_summary_lines clock data transcript in
  _format_text_summary clock data transcript = join [newline] text
  /\ _format_markdown_summary clock data transcript = join [newline] markdown
  /\ header_lines text_headers text = headers_with_content text_headers data
  /\ header_lines markdown_headers markdown
     = headers_with_content markdown_headers data
  /\ headed text_headers text
  /\ headed markdown_headers markdown
  /\ In (lit "PARTICIPANTS:") text
  /\ In (lit "## Participants") markdown.
Proof.
  intros data text markdown.
  split; [reflexivity|]. split; [reflexivity|].
  split; [apply text_header_lines|].
  split; [apply markdown_header_lines|].
  split; [apply text_lines_headed|].
  split; [apply markdown_lines_headed|].
  split.
  - unfold text, text_summary_lines. apply in_or_app. right. now left.
  - unfold markdown, markdown_summary_lines. apply in_or_app. right. now left.
Qed.

(** C9 as stated fails for the participants section: when every segment
    has blank text there are no participants, and both renderings still
    emit the participants header with nothing under it. *)
Lemma C9_participants_header_counterexample :
  speakers (_extract_summary_data insertion_order
              (get (tr_segments silence) [])) = []
  /\ summarize insertion_order noon silence (lit "txt")
     = join [newline]
         [ lit "MEETING SUMMARY";
           lit "==================================================";
           lit "Date: 2024-05-17 12:00:00";
           lit "Duration: Unknown seconds";
           [];
           lit "PARTICIPANTS:";
           [] ]
  /\ summarize insertion_order noon silence (lit "md")
     = join [newline]
         [ lit "# Meeting Summary";
           [];
           lit "**Date:** 2024-05-17 12:00:00";
           lit "**Duration:** Unknown seconds";
           [];
           lit "## Participants";
           [] ]
  /\ ~ headed [lit "PARTICIPANTS:"]
         (text_summary_lines noon
            (_extract_summary_data insertion_order
               (get (tr_segments silence) []))
            silence).
Proof.
  split; [vm_compute; reflexivity|].
  split; [vm_compute; reflexivity|].
  split; [vm_compute; reflexivity|].
  intros H. vm_compute in H.
  destruct H as (_ & _ & _ & _ & _ & H & _). now apply H.
Qed.

(** C10 (amended).  For every input text, no extracted keyword is a member
    of the fixed 36-word stop set and no extracted keyword has length <= 3;
    consequently the action-item marker words "will" and "should" never
    appear in keywords even when they occur more than once in the corpus. *)
Theorem C10_keywords_exclude_stop_words :
  length common_words = 36
  /\ NoDup common_words
  /\ (forall text k,
        In k (_extract_keywords text) -> ~ In k common_words /\ 3 < length k)
  /\ (forall set_iter segments k,
        In k (keywords (_extract_summary_data set_iter segments)) ->
        ~ In k common_words /\ 3 < length k)
  /\ (forall text,
        ~ In (lit "will") (_extract_keywords text)
        /\ ~ In (lit "should") (_extract_keywords text)).
Proof.
  assert (H : forall text k,
            In k (_extract_keywords text) ->
            ~ In k common_words /\ 3 < length k).
  { intros text k Hk. apply keyword_counted in Hk. destruct Hk as [Hc _].
    unfold counted in Hc. apply andb_true_iff in Hc. destruct Hc as [Hl Hm].
    apply Nat.ltb_lt in Hl. apply negb_true_iff, mem_false_iff in Hm. auto. }
  split; [reflexivity|].
  split.
  { apply (NoDup_count_occ' str_eq_dec). intros x Hx.
    repeat (destruct Hx as [<-|Hx]; [vm_compute; reflexivity|]).
    destruct Hx. }
  split; [exact H|]. split.
  - intros set_iter segments k Hk. rewrite extracted_keywords in Hk.
    apply (H (corpus segments)).
    rewrite <- (firstn_skipn 15 (_extract_keywords _)).
    apply in_or_app. now left.
  - intros text. split; intros Hk; apply H in Hk; destruct Hk as [Hk _];
      apply Hk; apply mem_true_iff; vm_compute; reflexivity.
Qed.

Lemma C10_keywords_witness :
  ~ In (lit "plan") common_words /\ 3 < length (lit "plan").
Proof.
  apply (proj1 (proj2 (proj2 C10_keywords_exclude_stop_words))
           (lit "We will plan. The plan will hold.") (lit "plan")).
  vm_compute. left. reflexivity.
Defined.

(** C10 as stated fails in one respect: the stop set has 36 words, so it
    is not a set of 40 words. *)
Lemma C10_stop_set_size_counterexample :
  ~ (exists stop : list str,
       length stop = 40 /\ NoDup stop
       /\ forall w, In w stop <-> In w common_words).
Proof.
  intros [stop [Hlen [Hnd Hsame]]].
  assert (H : length stop <= length common_words).
  { apply NoDup_incl_length; [assumption|]. intros w Hw. now apply Hsame. }
  rewrite Hlen in H. vm_compute in H. lia.
Qed.

(** * Further properties of the code *)

(** X1.  Every key point of the extracted SummaryData is a fragment of the
    text of one of the segments: it has no white space at either end, is
    longer than 20 characters and holds no '.', '!' or '?'. *)
Theorem X1_key_points_are_trimmed_fragments set_iter segments k :
  In k (key_points (_extract_summary_data set_iter segments)) ->
  strip k = k /\ 20 < length k /\ no_terminator k = true
  /\ exists segment,
       In segment segments /\ has_text segment = true
       /\ In k (substantial_sentences (text_of segment)).
Proof.
  unfold _extract_summary_data. cbn [key_points]. intros H.
  assert (Hin : In k (acc_key_points (scan_segments segments))).
  { rewrite <- (firstn_skipn 10 (acc_key_points _)).
    apply in_or_app. now left. }
  rewrite scan_key_points in Hin. apply in_flat_map in Hin.
  destruct Hin as [segment [Hs Hk]]. apply filter_In in Hs.
  destruct (substantial_sentence_shape _ _ Hk) as (H1 & H2 & H3).
  repeat split; try assumption. exists segment. tauto.
Qed.

Lemma X1_key_points_witness :
  let k := lit "We need to finish by next Friday" in
  strip k = k /\ 20 < length k /\ no_terminator k = true
  /\ exists segment,
       In segment meeting /\ has_text segment = true
       /\ In k (substantial_sentences (text_of segment)).
Proof.
  apply (X1_key_points_are_trimmed_fragments insertion_order meeting).
  vm_compute. right. right. left. reflexivity.
Defined.

(** X2.  The action items are, in segment order, the first five
    "speaker: text" strings of the segments with non-empty trimmed text
    whose lowercased text contains "todo", "need to", "should", "will" or
    "action". *)
Theorem X2_action_items_are_the_first_five_marked set_iter segments :
  action_items (_extract_summary_data set_iter segments)
  = firstn 5 (map action_item (filter marked (filter has_text segments))).
Proof.
  unfold _extract_summary_data. cbn [action_items].
  now rewrite scan_action_items.
Qed.

(** X3.  The summary text holds no '.', '!' or '?', and it is empty
    exactly when the corpus has no sentence longer than 20 characters. *)
Theorem X3_summary_text_has_no_terminator set_iter segments :
  let data := _extract_summary_data set_iter segments in
  no_terminator (summary_text data) = true
  /\ (summary_text data = [] <-> substantial_sentences (corpus segments) = []).
Proof.
  intros data. unfold data. rewrite extracted_summary_text.
  set (all := substantial_sentences (corpus segments)).
  assert (Hshape : forall k, In k (firstn 3 (firstn 5 all)) ->
                     20 < length k /\ no_terminator k = true).
  { intros k Hk. assert (Hin : In k all).
    { rewrite <- (firstn_skipn 5 all). apply in_or_app. left.
      rewrite <- (firstn_skipn 3 (firstn 5 all)). apply in_or_app. now left. }
    apply substantial_sentence_shape in Hin. tauto. }
  split.
  - apply join_forallb; [reflexivity|]. apply forallb_forall.
    intros k Hk. now apply Hshape.
  - split.
    + intros E. destruct all as [|k rest]; [reflexivity|]. exfalso.
      assert (Hlong : 20 < length (join (lit " ") (firstn 3 (firstn 5 (k :: rest))))).
      { apply join_long; [discriminate|]. apply Forall_forall.
        intros x Hx. now apply Hshape. }
      rewrite E in Hlong. simpl in Hlong. lia.
    + intros ->. reflexivity.
Qed.

(** X4.  The keywords of the extracted SummaryData are pairwise distinct,
    and each one is made of word characters only and is left unchanged by
    lowercasing. *)
Theorem X4_keywords_are_distinct_lowercase_words set_iter segments :
  let ks := keywords (_extract_summary_data set_iter segments) in
  NoDup ks
  /\ (forall k, In k ks -> lower k = k /\ forallb isword k = true).
Proof.
  intros ks. unfold ks. rewrite extracted_keywords. split.
  - apply NoDup_firstn_list, extract_keywords_NoDup.
  - intros k Hk.
    assert (Hin : In k (_extract_keywords (corpus segments))).
    { rewrite <- (firstn_skipn 15 (_extract_keywords _)).
      apply in_or_app. now left. }
    apply keyword_counted in Hin. destruct Hin as [_ [Hin _]]. split.
    + now apply (token_lower (corpus segments)).
    + pose proof (findall_runs_words [] (lower (corpus segments)) eq_refl) as H.
      rewrite forallb_forall in H. now apply H.
Qed.

Lemma X4_keywords_witness :
  lower (lit "project") = lit "project"
  /\ forallb isword (lit "project") = true.
Proof.
  apply (proj2 (X4_keywords_are_distinct_lowercase_words insertion_order
                  [ said "Ann" "The Project plan";
                    said "Ben" "PROJECT budget" ])
           (lit "project")).
  vm_compute. left. reflexivity.
Defined.

(** X5.  The extracted SummaryData, its segment count apart, depends only
    on the (speaker, trimmed text) pairs of the segments with non-empty
    trimmed text: segments with blank text and white space around a text
    change nothing else. *)
Theorem X5_extraction_reads_only_the_kept_pairs set_iter a b :
  map trimmed_pair (filter has_text a) = map trimmed_pair (filter has_text b) ->
  let da := _extract_summary_data set_iter a in
  let db := _extract_summary_data set_iter b in
  speakers da = speakers db
  /\ key_points da = key_points db
  /\ action_items da = action_items db
  /\ keywords da = keywords db
  /\ summary_text da = summary_text db.
Proof.
  intros E da db. unfold da, db, _extract_summary_data.
  cbn [speakers key_points action_items keywords summary_text].
  rewrite (scan_kept_pairs a), (scan_kept_pairs b), E. repeat split.
Qed.

Lemma X5_extraction_witness :
  let da := _extract_summary_data reverse_order padded_meeting in
  let db := _extract_summary_data reverse_order meeting in
  speakers da = speakers db
  /\ key_points da = key_points db
  /\ action_items da = action_items db
  /\ keywords da = keywords db
  /\ summary_text da = summary_text db.
Proof.
  apply (X5_extraction_reads_only_the_kept_pairs reverse_order
           padded_meeting meeting).
  vm_compute. reflexivity.
Defined.

(** X6.  When no segment has non-empty trimmed text (in particular for an
    empty list), extraction yields no speakers, key points, action items
    or keywords and an empty summary text, and counts all the segments. *)
Theorem X6_blank_segments_give_empty_data set_iter segments :
  set_order set_iter ->
  (forall segment, In segment segments -> text_of segment = []) ->
  _extract_summary_data set_iter segments
  = mkSummaryData [] (length segments) [] [] [] [].
Proof.
  intros Hord Hblank.
  assert (E : filter has_text segments = []).
  { induction segments as [|s segments IH]; [reflexivity|].
    simpl. unfold has_text at 1. rewrite (Hblank s) by now left.
    simpl. apply IH. intros x Hx. apply Hblank. now right. }
  assert (Escan : scan_segments segments = scan_segments []).
  { rewrite scan_kept_pairs, E. reflexivity. }
  unfold _extract_summary_data. rewrite Escan.
  assert (Hnil : set_iter [] = []).
  { apply Permutation_nil. apply Permutation_sym, Hord. constructor. }
  change (scan_segments []) with (mkAcc [] [] [] []).
  cbn [acc_speakers acc_all_text acc_key_points acc_action_items].
  rewrite Hnil. reflexivity.
Qed.

Lemma X6_blank_segments_witness :
  _extract_summary_data reverse_order [said "Alice" "   "; said "Bob" ""]
  = mkSummaryData [] 2 [] [] [] [].
Proof.
  apply (X6_blank_segments_give_empty_data reverse_order
           [said "Alice" "   "; said "Bob" ""]).
  - intros s _. apply Permutation_sym, Permutation_rev.
  - intros segment [<-|[<-|[]]]; reflexivity.
Defined.

(** X7.  summarize returns "No transcript content to summarize." exactly
    when the transcript has no segments, whatever the format asked for: a
    transcript with a segment, even one with blank text, never gets the
    message. *)
Theorem X7_summarize_message_only_when_empty
    set_iter clock transcript format_type :
  summarize set_iter clock transcript format_type = no_content
  <-> get (tr_segments transcript) [] = [].
Proof.
  split.
  - unfold summarize.
    destruct (get (tr_segments transcript) []) as [|s rest]; [reflexivity|].
    cbn [nonempty negb].
    destruct (str_eqb format_type (lit "md"));
      [|destruct (str_eqb format_type (lit "json"))]; intros H; discriminate H.
  - intros H. unfold summarize. now rewrite H.
Qed.

(** X8.  The Markdown transcript holds, after its title, one block per
    maximal group of consecutive segments (among those with non-empty
    trimmed text) by the same speaker: one heading with the speaker, then
    one line per segment; the groups cover these segments in order and
    neighbouring groups have different speakers. *)
Theorem X8_markdown_groups_consecutive_speakers clock transcript :
  let kept := filter has_text (get (tr_segments transcript) []) in
  TabletopNotetakerApp._save_as_markdown clock transcript
  = markdown_title clock ++ flat_map markdown_block (runs kept)
  /\ concat (map snd (runs kept)) = kept
  /\ Forall (fun g => snd g <> []
                      /\ Forall (fun s => speaker_of s = fst g) (snd g))
       (runs kept)
  /\ speakers_alternate (runs kept).
Proof.
  intros kept. split; [|split; [apply runs_concat|split;
    [apply runs_groups|apply runs_alternate]]].
  unfold TabletopNotetakerApp._save_as_markdown.
  rewrite write_markdown_kept. fold kept.
  rewrite write_markdown_runs.
  - unfold markdown_title. destruct (runs kept) as [|[speaker group] more];
      reflexivity.
  - apply Forall_forall. intros s Hs. unfold kept in Hs.
    now apply filter_In in Hs.
Qed.

(** X9.  A recording session of the service: started on an idle service
    with a non-empty path on a machine whose audio device opens, after the
    capture loop has read at least one chunk, stop_recording (on a machine
    where closing and writing succeed) returns the path and writes to it
    exactly the chunks read since the start, in order; chunks left from an
    earlier session are not written. *)
Theorem X9_service_session_writes_what_was_captured
    host1 host2 (path : str) chunks st :
  RecordingService.is_recording st = false ->
  pyaudio_ok host1 = true -> open_ok host1 = true ->
  teardown_ok host2 = true -> save_ok host2 = true ->
  path <> [] -> chunks <> [] ->
  let started := RecordingService.start_recording host1 (Some path) st in
  let stopped :=
    RecordingService.stop_recording host2 (capture chunks (fst started)) in
  snd started = Returned tt
  /\ snd stopped = Returned (Some path)
  /\ RecordingService.written (fst stopped)
     = RecordingService.written st ++ [(path, chunks)]
  /\ RecordingService.is_recording (fst stopped) = false.
Proof.
  intros Hidle Hp Ho Ht Hs Hpath Hchunks.
  now apply service_session.
Qed.

Lemma X9_service_session_witness :
  let chunks := [[Byte.x01; Byte.x02]; [Byte.x03]] in
  let started :=
    RecordingService.start_recording studio (Some (lit "take.wav"))
      RecordingService.init in
  let stopped :=
    RecordingService.stop_recording studio (capture chunks (fst started)) in
  snd started = Returned tt
  /\ snd stopped = Returned (Some (lit "take.wav"))
  /\ RecordingService.written (fst stopped)
     = RecordingService.written RecordingService.init
       ++ [(lit "take.wav", chunks)]
  /\ RecordingService.is_recording (fst stopped) = false.
Proof.
  apply (X9_service_session_writes_what_was_captured studio studio
           (lit "take.wav") [[Byte.x01; Byte.x02]; [Byte.x03]]
           RecordingService.init);
    try reflexivity; discriminate.
Defined.

(** X10.  stop_recording of the service always leaves it not recording,
    whether it returns or raises, and a second stop_recording returns none
    and changes nothing. *)
Theorem X10_service_stop_leaves_idle host host' st :
  let stopped := fst (RecordingService.stop_recording host st) in
  RecordingService.is_recording stopped = false
  /\ RecordingService.stop_recording host' stopped = (stopped, Returned None).
Proof.
  intros stopped.
  assert (Hidle : RecordingService.is_recording stopped = false).
  { unfold stopped, RecordingService.stop_recording,
      RecordingService._save_recording.
    destruct (RecordingService.is_recording st) eqn:E; cbn [negb fst];
      [|auto].
    cbn [RecordingService.stream RecordingService.audio
         RecordingService.output_path RecordingService.frames].
    destruct ((RecordingService.stream st || RecordingService.audio st)
              && negb (teardown_ok host)); [auto|].
    destruct (RecordingService.output_path st) as [p|]; [|auto].
    destruct (truthy p && nonempty (RecordingService.frames st)); [|auto].
    destruct (save_ok host); auto. }
  split; [assumption|].
  unfold RecordingService.stop_recording. now rewrite Hidle.
Qed.

(** X11.  A start_recording of the service that fails on the audio device
    (PyAudio cannot be created or the stream cannot be opened) raises and
    leaves the service flagged as recording with no capture thread started
    and the earlier frames dropped; from then on every start_recording
    returns without doing anything, and no chunk is captured. *)
Theorem X11_service_failed_start_stays_flagged
    host path host' path' chunks st :
  RecordingService.is_recording st = false ->
  RecordingService.recording_thread st = false ->
  pyaudio_ok host && open_ok host = false ->
  let failed := RecordingService.start_recording host path st in
  snd failed = Raised
  /\ RecordingService.is_recording (fst failed) = true
  /\ RecordingService.frames (fst failed) = []
  /\ RecordingService.start_recording host' path' (fst failed)
     = (fst failed, Returned tt)
  /\ capture chunks (fst failed) = fst failed.
Proof.
  intros Hidle Hthread Hbad failed.
  assert (H : snd failed = Raised
              /\ RecordingService.is_recording (fst failed) = true
              /\ RecordingService.frames (fst failed) = []
              /\ RecordingService.recording_thread (fst failed) = false).
  { unfold failed, RecordingService.start_recording. rewrite Hidle.
    destruct (pyaudio_ok host); cbn [negb]; [|cbn; auto].
    destruct (open_ok host); [discriminate Hbad|]. cbn. auto. }
  destruct H as (H1 & H2 & H3 & H4). repeat split; try assumption.
  - now apply service_start_while_recording.
  - apply capture_without_thread. rewrite H4. apply andb_false_r.
Qed.

Lemma X11_service_failed_start_witness :
  let failed :=
    RecordingService.start_recording (mkHost true false true true)
      (Some (lit "take.wav")) RecordingService.init in
  snd failed = Raised
  /\ RecordingService.is_recording (fst failed) = true
  /\ RecordingService.frames (fst failed) = []
  /\ RecordingService.start_recording studio (Some (lit "next.wav"))
       (fst failed)
     = (fst failed, Returned tt)
  /\ capture [[Byte.x01]] (fst failed) = fst failed.
Proof.
  apply (X11_service_failed_start_stays_flagged (mkHost true false true true)
           (Some (lit "take.wav")) studio (Some (lit "next.wav"))
           [[Byte.x01]] RecordingService.init); reflexivity.
Defined.

(** X12.  A recording session of the application: start_recording with a
    non-empty path on an idle service and a machine whose audio device
    opens returns true; after at least one chunk has been captured,
    stop_recording (closing and writing succeed) returns the path, adds it
    to the list of recordings, and the file written under that path holds
    exactly the captured chunks. *)
Theorem X12_app_session_records_to_the_path
    host1 host2 clock path_str p chunks app :
  RecordingService.is_recording (TabletopNotetakerApp.recording_service app)
  = false ->
  pyaudio_ok host1 = true -> open_ok host1 = true ->
  teardown_ok host2 = true -> save_ok host2 = true ->
  p <> [] -> path_str p <> [] -> chunks <> [] ->
  let started :=
    TabletopNotetakerApp.start_recording host1 clock path_str (Some p) app in
  let stopped :=
    TabletopNotetakerApp.stop_recording host2
      (app_capture chunks (fst started)) in
  snd started = true
  /\ snd stopped = Some (path_str p)
  /\ TabletopNotetakerApp.recordings (fst stopped)
     = TabletopNotetakerApp.recordings app ++ [path_str p]
  /\ RecordingService.written
       (TabletopNotetakerApp.recording_service (fst stopped))
     = RecordingService.written (TabletopNotetakerApp.recording_service app)
       ++ [(path_str p, chunks)]
  /\ TabletopNotetakerApp.is_recording (fst stopped) = false.
Proof.
  intros Hidle Hp Ho Ht Hs Hne Hpath Hchunks started stopped.
  destruct (service_session_states host1 host2 (path_str p) chunks
              (TabletopNotetakerApp.recording_service app)
              Hidle Hp Ho Ht Hs Hpath Hchunks)
    as (svc & svc' & E1 & E2 & H3 & H4).
  subst stopped started. unfold TabletopNotetakerApp.start_recording.
  assert (Etruthy : truthy p = true) by now apply truthy_true.
  rewrite Etruthy, E1. cbn [fst snd].
  unfold TabletopNotetakerApp.stop_recording, app_capture.
  cbn [TabletopNotetakerApp.is_recording
       TabletopNotetakerApp.recording_service
       TabletopNotetakerApp.current_recording_path
       TabletopNotetakerApp.recordings].
  rewrite E2. cbn. repeat split; assumption.
Qed.

Lemma X12_app_session_witness :
  let chunks := [[Byte.x01; Byte.x02]; [Byte.x03]] in
  let started :=
    TabletopNotetakerApp.start_recording studio noon same_path
      (Some (lit "game night.wav")) TabletopNotetakerApp.init in
  let stopped :=
    TabletopNotetakerApp.stop_recording studio
      (app_capture chunks (fst started)) in
  snd started = true
  /\ snd stopped = Some (same_path (lit "game night.wav"))
  /\ TabletopNotetakerApp.recordings (fst stopped)
     = TabletopNotetakerApp.recordings TabletopNotetakerApp.init
       ++ [same_path (lit "game night.wav")]
  /\ RecordingService.written
       (TabletopNotetakerApp.recording_service (fst stopped))
     = RecordingService.written
         (TabletopNotetakerApp.recording_service TabletopNotetakerApp.init)
       ++ [(same_path (lit "game night.wav"), chunks)]
  /\ TabletopNotetakerApp.is_recording (fst stopped) = false.
Proof.
  apply (X12_app_session_records_to_the_path studio studio noon same_path
           (lit "game night.wav") [[Byte.x01; Byte.x02]; [Byte.x03]]
           TabletopNotetakerApp.init);
    try reflexivity; discriminate.
Defined.



(** X14.  Whatever the record button of the window is clicked through
    (devices that fail or not, closing that raises or not), the window's
    recording flag stays equal to the application's, provided a path is
    never written as the empty string. *)
Theorem X14_window_flag_follows_the_application path_str steps :
  (forall p, path_str p <> []) ->
  let st := clicks path_str steps GUIInterface.init in
  GUIInterface.recording st
  = TabletopNotetakerApp.is_recording (GUIInterface.app st).
Proof.
  intros Hpath st.
  assert (H : forall steps st0,
            window_in_step st0 -> window_in_step (clicks path_str steps st0)).
  { clear st steps. induction steps as [|step steps IH]; intros st0 H0;
      [assumption|].
    unfold clicks in *. cbn [fold_left]. apply IH.
    now apply toggle_in_step. }
  apply (H steps GUIInterface.init). split; [reflexivity|discriminate].
Qed.

Lemma X14_window_flag_witness :
  let st :=
    clicks dot_path
      [ (mkHost false true true true, noon); (studio, noon);
        (mkHost true true false true, noon); (studio, noon) ]
      GUIInterface.init in
  GUIInterface.recording st
  = TabletopNotetakerApp.is_recording (GUIInterface.app st).
Proof.
  apply (X14_window_flag_follows_the_application dot_path
           [ (mkHost false true true true, noon); (studio, noon);
             (mkHost true true false true, noon); (studio, noon) ]).
  intros [|c p]; discriminate.
Defined.

(** X15.  Every segment the transcript parser yields has a speaker and a
    text without white space at either end and without a line break, a
    speaker without "]:", and both times set to 0.0. *)
Theorem X15_parsed_segments_are_trimmed content :
  exists segments,
    tr_segments (CLIInterface._parse_transcript_file content) = Some segments
    /\ Forall (fun s => exists sp tx,
                          s = parsed sp tx
                          /\ strip sp = sp /\ strip tx = tx
                          /\ contains (lit "]:") sp = false
                          /\ ~ In newline sp /\ ~ In newline tx)
         segments.
Proof.
  eexists. split; [apply parsed_segments|apply parsed_segments_shape].
Qed.

(** X16.  A transcript read from a file, written as a text file and read
    again gives back the same segments, in order, those with empty text
    apart (they are not written); this on either platform's line ending,
    the date line being what strftime prints. *)
Theorem X16_parsed_transcript_survives_rewriting platform clock file :
  date_like (now_pretty clock) = true ->
  let read_once := CLIInterface.read_transcript file in
  tr_segments
    (CLIInterface.read_transcript
       (TabletopNotetakerApp.saved_text_file clock platform read_once))
  = Some (filter has_text (get (tr_segments read_once) [])).
Proof.
  intros Hd read_once. subst read_once.
  change (CLIInterface.read_transcript file)
    with (CLIInterface._parse_transcript_file (TextFile.read_text file)).
  set (content := TextFile.read_text file).
  pose proof (parsed_segments_shape content) as Hshape.
  assert (Hkept : Forall (fun s =>
                     (exists sp tx,
                        s = parsed sp tx /\ strip sp = sp /\ strip tx = tx
                        /\ contains (lit "]:") sp = false
                        /\ ~ In newline sp /\ ~ In newline tx)
                     /\ ~ In TextFile.carriage_return (speaker_of s)
                     /\ ~ In TextFile.carriage_return
                           (get (seg_text s) []))
                    (filter has_text
                       (get (tr_segments
                               (CLIInterface._parse_transcript_file content))
                          []))).
  { rewrite parsed_segments. cbn [get]. rewrite Forall_forall in *.
    intros s Hs. apply filter_In in Hs. destruct Hs as [Hs _].
    split; [now apply Hshape|].
    split; intros Hc; apply (read_text_clean file);
      apply (parsed_segments_chars content s _ Hs); auto. }
  rewrite read_back_file; [|assumption|].
  - f_equal. rewrite <- (map_id (filter has_text _)) at 2.
    apply map_ext_in. intros s Hs. rewrite Forall_forall in Hkept.
    destruct (Hkept s Hs) as ((sp & tx & -> & _ & Htx & _) & _).
    unfold text_of, parsed. cbn [seg_text get speaker_of seg_speaker].
    now rewrite Htx.
  - rewrite Forall_forall in *. intros s Hs.
    destruct (Hkept s Hs)
      as ((sp & tx & -> & Hsp & Htx & Hc & Hn1 & Hn2) & Hr1 & Hr2).
    unfold survives_file, reads_back, text_of, parsed in *.
    cbn [seg_text get speaker_of seg_speaker] in *. rewrite Htx. auto.
Qed.

Lemma X16_parsed_transcript_witness :
  let read_once :=
    CLIInterface.read_transcript
      (lit "minutes" ++ [TextFile.carriage_return; newline]
       ++ lit " [GM ]: Roll.  " ++ [newline]
       ++ lit "x[Ann]:" ++ [TextFile.carriage_return]
       ++ lit "[Bo]: [Ann]: hi") in
  tr_segments
    (CLIInterface.read_transcript
       (TabletopNotetakerApp.saved_text_file noon TextFile.Windows read_once))
  = Some (filter has_text (get (tr_segments read_once) [])).
Proof.
  apply (X16_parsed_transcript_survives_rewriting TextFile.Windows noon
           (lit "minutes" ++ [TextFile.carriage_return; newline]
            ++ lit " [GM ]: Roll.  " ++ [newline]
            ++ lit "x[Ann]:" ++ [TextFile.carriage_return]
            ++ lit "[Bo]: [Ann]: hi")).
  reflexivity.
Defined.

(** X17.  The file name the command loop hands to transcribe_file or
    summarize_file is never empty, holds no white space and no upper-case
    letter: the line typed is lowercased as a whole before it is split. *)
Theorem X17_command_paths_are_lowercased typed path :
  CLIInterface.dispatch typed = CLIInterface.TranscribeFile path
  \/ CLIInterface.dispatch typed = CLIInterface.SummarizeFile path ->
  lower path = path /\ path <> []
  /\ forallb (fun c => negb (isspace c)) path = true.
Proof.
  unfold CLIInterface.dispatch.
  set (command := lower (strip typed)).
  assert (Hw : forall a p rest,
            split_ws command = a :: p :: rest ->
            lower p = p /\ p <> []
            /\ forallb (fun c => negb (isspace c)) p = true).
  { intros a p rest E. apply (split_ws_lowered (strip typed)).
    fold command. rewrite E. right. now left. }
  repeat match goal with
         | |- context [if ?b then _ else _] => destruct b
         end;
    try (intros [H|H]; discriminate H);
    destruct (split_ws command) as [|a [|p rest]] eqn:E;
    intros [H|H]; try discriminate H;
    injection H as <-; now apply (Hw a p rest).
Qed.

Lemma X17_command_paths_witness :
  lower (lit "session1.wav") = lit "session1.wav"
  /\ lit "session1.wav" <> []
  /\ forallb (fun c => negb (isspace c)) (lit "session1.wav") = true.
Proof.
  apply (X17_command_paths_are_lowercased
           (lit "  Transcribe  Session1.WAV now ") (lit "session1.wav")).
  left. vm_compute. reflexivity.
Defined.

(** X18.  The command loop reads a line regardless of its case and of the
    white space around it. *)
Theorem X18_commands_ignore_case_and_padding typed :
  CLIInterface.dispatch (lower typed) = CLIInterface.dispatch typed
  /\ CLIInterface.dispatch (strip typed) = CLIInterface.dispatch typed.
Proof.
  unfold CLIInterface.dispatch.
  now rewrite strip_lower, lower_idem, strip_idem.
Qed.

(** X19.  summarize_transcript of the command line always has a summary
    to write: the file name is meeting_summary.txt, meeting_summary.md or
    meeting_summary.json, an answer that is none of txt, md and json
    (whatever its case and padding) counts as txt, and the content is the
    summary rendered in the format of the name. *)
Theorem X19_summary_file_name_matches_its_format
    set_iter clock transcript answer :
  let format := CLIInterface.format_choice answer in
  In format [lit "txt"; lit "md"; lit "json"]
  /\ (~ In (lower (strip answer)) [lit "txt"; lit "md"; lit "json"] ->
      format = lit "txt")
  /\ CLIInterface.summarize_transcript set_iter clock transcript answer
     = Some (lit "meeting_summary." ++ format,
             summarize set_iter clock transcript format).
Proof.
  intros format. unfold format, CLIInterface.format_choice.
  destruct (mem (lower (strip answer)) [lit "txt"; lit "md"; lit "json"])
    eqn:E.
  - apply mem_true_iff in E. split; [assumption|]. split; [tauto|].
    unfold CLIInterface.summarize_transcript, CLIInterface.format_choice.
    apply mem_true_iff in E. rewrite E, summarize_nonempty. reflexivity.
  - split; [now left|]. split; [reflexivity|].
    unfold CLIInterface.summarize_transcript, CLIInterface.format_choice.
    rewrite E, summarize_nonempty. reflexivity.
Qed.

Lemma X19_summary_file_witness :
  CLIInterface.format_choice (lit " PDF ") = lit "txt".
Proof.
  apply (proj1 (proj2 (X19_summary_file_name_matches_its_format
                         insertion_order noon silence (lit " PDF ")))).
  vm_compute. intros [H|[H|[H|[]]]]; discriminate H.
Defined.

(** X20.  A transcript file without any '[' holds no segment: parsing it
    gives an empty transcript of duration 0, and summarizing that from the
    command line writes "No transcript content to summarize.". *)
Theorem X20_file_without_brackets_has_no_content
    set_iter clock content answer :
  ~ In "["%char content ->
  let transcript := CLIInterface._parse_transcript_file content in
  tr_segments transcript = Some []
  /\ tr_duration transcript = Some (NInt 0)
  /\ CLIInterface.summarize_transcript set_iter clock transcript answer
     = Some (lit "meeting_summary." ++ CLIInterface.format_choice answer,
             lit "No transcript content to summarize.").
Proof.
  intros Hno transcript.
  assert (E : fold_left CLIInterface.parse_line
                (split_char newline content) [] = []).
  { rewrite parse_lines_flat. cbn [app].
    assert (H : forall lines,
              (forall line, In line lines ->
                 forall c, In c line -> In c content) ->
              flat_map (CLIInterface.parse_line []) lines = []).
    { induction lines as [|line lines IH]; intros Hl; [reflexivity|].
      cbn [flat_map]. rewrite IH by (intros l Hin; apply Hl; now right).
      rewrite parse_line_ignored; [reflexivity|]. right. left.
      destruct (contains (lit "[") (strip line)) eqn:Ec; [|reflexivity].
      exfalso. apply (contains_char_In "["%char) in Ec. apply strip_In in Ec.
      apply Hno. apply (Hl line); [now left|assumption]. }
    apply H. intros line Hline c Hc.
    now destruct (split_char_In newline content line c Hline Hc). }
  unfold transcript, CLIInterface._parse_transcript_file. rewrite E.
  split; [reflexivity|]. split; [reflexivity|].
  unfold CLIInterface.summarize_transcript. reflexivity.
Qed.

Lemma X20_file_without_brackets_witness :
  let transcript :=
    CLIInterface._parse_transcript_file
      (lit "Meeting notes" ++ [newline] ++ lit "Alice: hello") in
  tr_segments transcript = Some []
  /\ tr_duration transcript = Some (NInt 0)
  /\ CLIInterface.summarize_transcript insertion_order noon transcript
       (lit "md")
     = Some (lit "meeting_summary." ++ CLIInterface.format_choice (lit "md"),
             lit "No transcript content to summarize.").
Proof.
  apply (X20_file_without_brackets_has_no_content insertion_order noon
           (lit "Meeting notes" ++ [newline] ++ lit "Alice: hello")
           (lit "md")).
  apply not_In_by_test. vm_compute. reflexivity.
Defined.

(** X21.  For a transcript with at least one segment, the text file
    _save_as_text writes is its title followed by exactly what the window
    shows for the transcript: one "[speaker]: text" line per segment with
    non-empty trimmed text. *)
Theorem X21_window_shows_what_is_saved clock transcript :
  get (tr_segments transcript) [] <> [] ->
  GUIInterface._display_transcript transcript
  = flat_map written_line (filter has_text (get (tr_segments transcript) []))
  /\ TabletopNotetakerApp._save_as_text clock transcript
     = text_title clock ++ GUIInterface._display_transcript transcript.
Proof.
  intros Hne.
  assert (Hshow : forall segments shown,
            fold_left GUIInterface.insert_segment segments shown
            = shown ++ flat_map written_line (filter has_text segments)).
  { induction segments as [|s segments IH]; intros shown; simpl.
    - now rewrite app_nil_r.
    - rewrite IH. unfold GUIInterface.insert_segment, has_text.
      destruct (truthy (text_of s)); [|reflexivity].
      cbn [filter flat_map]. unfold written_line.
      now rewrite <- (app_assoc shown). }
  assert (E : GUIInterface._display_transcript transcript
              = flat_map written_line
                  (filter has_text (get (tr_segments transcript) []))).
  { unfold GUIInterface._display_transcript.
    destruct (get (tr_segments transcript) []) as [|s rest]; [congruence|].
    cbn [nonempty negb]. now rewrite Hshow. }
  split; [exact E|]. rewrite E.
  unfold TabletopNotetakerApp._save_as_text. now rewrite write_segments_flat.
Qed.

Lemma X21_window_witness :
  GUIInterface._display_transcript
    (mkTranscript None None None (Some padded_meeting) None)
  = flat_map written_line (filter has_text padded_meeting)
  /\ TabletopNotetakerApp._save_as_text noon
       (mkTranscript None None None (Some padded_meeting) None)
     = text_title noon
       ++ GUIInterface._display_transcript
            (mkTranscript None None None (Some padded_meeting) None).
Proof.
  apply (X21_window_shows_what_is_saved noon
           (mkTranscript None None None (Some padded_meeting) None)).
  discriminate.
Defined.

(** X22.  transcribe_with_diarization always returns a transcript for the
    given path: it holds one segment, spanning 0.0 to the duration (30
    when the source has none) and spoken by "Speaker 1", "Unknown" or
    "Error", when the file loads and recognition returns text or one of
    its two own errors; in every other case it holds no segment and an
    error message. *)
Theorem X22_transcription_yields_one_segment_or_an_error
    clock source recognition audio_path :
  let transcript :=
    TranscriptionService.transcribe_with_diarization clock source
      recognition audio_path in
  tr_file_path transcript = Some audio_path
  /\ exists segments,
       tr_segments transcript = Some segments
       /\ length segments <= 1
       /\ (tr_error transcript = None <-> length segments = 1)
       /\ (tr_error transcript = None <->
           exists duration,
             source = Audio duration
             /\ tr_duration transcript = Some (get duration (NInt 30))
             /\ forall message, recognition <> Crashed message)
       /\ Forall (fun s => seg_start s = Some (NFloat (lit "0.0"))
                           /\ seg_end s = tr_duration transcript
                           /\ In (speaker_of s)
                                [lit "Speaker 1"; lit "Unknown"; lit "Error"])
            segments.
Proof.
  intros transcript. unfold transcript.
  destruct source as [message|duration]; [|destruct recognition];
    cbn; (split; [reflexivity|]); eexists; (split; [reflexivity|]);
    (split; [cbn; lia|]).
  all: split; [cbn; split; intros H; try reflexivity; discriminate H|].
  all: split;
    [|try apply Forall_nil;
      try (apply Forall_cons; [|apply Forall_nil]; cbn;
           split; [reflexivity|split; [reflexivity|auto]])].
  - split; [discriminate|]. intros [d [H _]]. discriminate H.
  - split; [|reflexivity]. intros _. exists duration.
    repeat split. discriminate.
  - split; [|reflexivity]. intros _. exists duration.
    repeat split. discriminate.
  - split; [|reflexivity]. intros _. exists duration.
    repeat split. discriminate.
  - split; [discriminate|]. intros [d [_ [_ H]]]. now specialize (H message).
Qed.



(** X24.  The summary data of a transcription names at most one
    participant and counts at most one segment, whatever was recognized. *)
Theorem X24_transcription_has_at_most_one_participant
    set_iter clock source recognition audio_path :
  set_order set_iter ->
  let transcript :=
    TranscriptionService.transcribe_with_diarization clock source
      recognition audio_path in
  let data :=
    _extract_summary_data set_iter (get (tr_segments transcript) []) in
  length (speakers data) <= 1 /\ total_segments data <= 1.
Proof.
  intros Hord transcript data.
  assert (Hlen : length (get (tr_segments transcript) []) <= 1).
  { unfold transcript.
    destruct source as [message|duration]; [|destruct recognition];
      cbn; lia. }
  split; [|exact Hlen].
  unfold data, _extract_summary_data. cbn [speakers].
  rewrite scan_speakers.
  rewrite (Permutation_length (Hord _ (distinct_NoDup _))).
  destruct (get (tr_segments transcript) []) as [|s [|s' rest]];
    [cbn; lia| |cbn in Hlen; lia].
  cbn [filter]. destruct (has_text s); cbn; lia.
Qed.

Lemma X24_transcription_witness :
  let transcript :=
    TranscriptionService.transcribe_with_diarization noon (Audio None)
      (Recognized (lit "We should roll initiative.")) (lit "game.wav") in
  let data :=
    _extract_summary_data reverse_order (get (tr_segments transcript) []) in
  length (speakers data) <= 1 /\ total_segments data <= 1.
Proof.
  apply (X24_transcription_has_at_most_one_participant reverse_order noon
           (Audio None) (Recognized (lit "We should roll initiative."))
           (lit "game.wav")).
  intros s _. apply Permutation_sym, Permutation_rev.
Defined.
